(** * Path3DMesh: a chain of cubic Bezier segments with draggable helpers

    Shallow embedding of [Path3DMesh] (scene/curves/path3d.ts), of
    [IPath3DMeshCurve] (scene/curves/curve.ts) and of what [Path3DInspector]
    (path3d-inspector.tsx) does to a path: the removal of a segment and the
    edit of a control point.  The tree and the selection of the inspector
    and the channel names of shared/ipc.ts follow the path.

    JavaScript objects are modelled by two stores: [vectors] holds the
    [Vector3] objects that serve as control points and [meshes] holds the
    helper meshes; a reference is an index into its store, so two fields
    denote the identical object exactly when they hold the same index.
    Methods are computations in a state monad with exceptions; a thrown
    exception keeps the state reached at the point of the throw, as in
    JavaScript.  The type [number] is modelled by exact rationals. *)

From Stdlib Require Import ZArith QArith Qcanon Lia.
From Stdlib Require String.
Import String.StringSyntax.
From stdpp Require Import base option list numbers.

(** ** Values of the rendering engine *)

Record Vector3 := mkVector3 { x : Qc; y : Qc; z : Qc }.

Record Color3 := mkColor3 { r : Qc; g : Qc; b : Qc }.

Record Color4 := mkColor4 { r4 : Qc; g4 : Qc; b4 : Qc; a4 : Qc }.

(** The vector of the fractions [xn/xd], [yn/yd], [zn/zd]. *)
Definition vec3 (xn : Z) (xd : positive) (yn : Z) (yd : positive) (zn : Z)
  (zd : positive) : Vector3 :=
  mkVector3 (Q2Qc (xn # xd)) (Q2Qc (yn # yd)) (Q2Qc (zn # zd)).

Definition Zero : Vector3 := mkVector3 0%Qc 0%Qc 0%Qc.

(** A reference to an object of a store. *)
Abbreviation ref := nat.

(** ** IPath3DMeshCurve (curve.ts) *)

(** [curve] is the cached [Curve3], given by the points [getPoints()]
    returns; [None] is the [null!] of the field initialiser. *)
Record IPath3DMeshCurve := mkCurve {
  curve : option (list Vector3);
  nbPoints : Z;
  v0 : ref;
  v1 : ref;
  v2 : ref;
  v3 : ref;
}.

Definition setCurve (pts : option (list Vector3)) (c : IPath3DMeshCurve)
  : IPath3DMeshCurve :=
  mkCurve pts (nbPoints c) (v0 c) (v1 c) (v2 c) (v3 c).

(** ** Helper meshes *)

(** A helper is a sphere or an instance of the sphere [sourceMesh];
    [onMoved] is the slot index captured by the callback that [_getHelper]
    attaches to the helper. *)
Record AbstractMesh := mkMesh {
  position : Vector3;
  disposed : bool;
  sourceMesh : option ref;
  onMoved : option nat;
}.

Definition setPosition (p : Vector3) (m : AbstractMesh) : AbstractMesh :=
  mkMesh p (disposed m) (sourceMesh m) (onMoved m).

Definition setDisposed (m : AbstractMesh) : AbstractMesh :=
  mkMesh (position m) true (sourceMesh m) (onMoved m).

Definition setOnMoved (index : nat) (m : AbstractMesh) : AbstractMesh :=
  mkMesh (position m) (disposed m) (sourceMesh m) (Some index).

(** What [CreateLineSystemVertexData] is given. *)
Record VertexData := mkVertexData {
  lines : list (list Vector3);
  colors : list (list Color4);
}.

(** ** The mesh and its object stores *)

Record Path3DMesh := mkPath3DMesh {
  vectors : list Vector3;
  meshes : list AbstractMesh;
  curves : list IPath3DMeshCurve;
  _helpers : list ref;
  _helperRef : option ref;
  isVisible : bool;
  color : Color3;
  _geometry : option VertexData;
}.

Definition set_vectors (f : list Vector3 -> list Vector3) (s : Path3DMesh) :=
  mkPath3DMesh (f (vectors s)) (meshes s) (curves s) (_helpers s)
    (_helperRef s) (isVisible s) (color s) (_geometry s).

Definition set_meshes (f : list AbstractMesh -> list AbstractMesh)
  (s : Path3DMesh) :=
  mkPath3DMesh (vectors s) (f (meshes s)) (curves s) (_helpers s)
    (_helperRef s) (isVisible s) (color s) (_geometry s).

Definition set_curves
  (f : list IPath3DMeshCurve -> list IPath3DMeshCurve) (s : Path3DMesh) :=
  mkPath3DMesh (vectors s) (meshes s) (f (curves s)) (_helpers s)
    (_helperRef s) (isVisible s) (color s) (_geometry s).

Definition set_helpers (f : list ref -> list ref) (s : Path3DMesh) :=
  mkPath3DMesh (vectors s) (meshes s) (curves s) (f (_helpers s))
    (_helperRef s) (isVisible s) (color s) (_geometry s).

Definition set_helperRef (h : option ref) (s : Path3DMesh) :=
  mkPath3DMesh (vectors s) (meshes s) (curves s) (_helpers s)
    h (isVisible s) (color s) (_geometry s).

Definition set_isVisible (v : bool) (s : Path3DMesh) :=
  mkPath3DMesh (vectors s) (meshes s) (curves s) (_helpers s)
    (_helperRef s) v (color s) (_geometry s).

Definition set_color (c : Color3) (s : Path3DMesh) :=
  mkPath3DMesh (vectors s) (meshes s) (curves s) (_helpers s)
    (_helperRef s) (isVisible s) c (_geometry s).

Definition set_geometry (vd : VertexData) (s : Path3DMesh) :=
  mkPath3DMesh (vectors s) (meshes s) (curves s) (_helpers s)
    (_helperRef s) (isVisible s) (color s) (Some vd).

(** ** State and exceptions *)

Inductive exn := TypeError | InvalidSampleCount.

Inductive completion (A : Type) :=
  | Returned (a : A)
  | Thrown (e : exn).
Arguments Returned {A} a.
Arguments Thrown {A} e.

Definition M (A : Type) : Type := Path3DMesh -> completion A * Path3DMesh.

#[global] Instance M_ret : MRet M := fun A a s => (Returned a, s).

#[global] Instance M_bind : MBind M := fun A B f m s =>
  match m s with
  | (Returned a, s') => f a s'
  | (Thrown e, s') => (Thrown e, s')
  end.

Definition throw {A} (e : exn) : M A := fun s => (Thrown e, s).

Definition gets {A} (f : Path3DMesh -> A) : M A := fun s => (Returned (f s), s).

Definition modify (f : Path3DMesh -> Path3DMesh) : M unit :=
  fun s => (Returned tt, f s).

Definition lift {A} (c : completion A) : M A := fun s => (c, s).

(** Reading a property of [undefined] throws a TypeError. *)
Definition defined {A} (o : option A) : M A :=
  match o with
  | Some a => mret a
  | None => throw TypeError
  end.

(** [array.forEach((a, index) => ...)], with the locals the callback
    updates threaded through as [acc]. *)
Fixpoint forEach {A L} (f : L -> A -> nat -> M L) (l : list A) (index : nat)
  (acc : L) : M L :=
  match l with
  | [] => mret acc
  | a :: l' => acc' ← f acc a index; forEach f l' (S index) acc'
  end.

(** [array[i]] for a [number] index. *)
Definition at_index {A} (l : list A) (i : Z) : option A :=
  if (i <? 0)%Z then None else l !! Z.to_nat i.

(** ** Vector3 objects *)

(** A reference held by a live object always denotes an object; the model
    gives the lookup of a reference outside the store the TypeError of a
    read through [undefined]. *)
Definition readVector (p : ref) : M Vector3 :=
  V ← gets vectors; defined (V !! p).

(** [target.copyFrom(source)]: the object [target] is overwritten in place;
    [None] stands for a [Vector3.Zero()] local to the caller, whose writes
    nothing else observes. *)
Definition copyFrom (target : option ref) (source : Vector3) : M unit :=
  match target with
  | Some p => _ ← readVector p; modify (set_vectors (<[p := source]>))
  | None => mret tt
  end.

(** ** Curve3.CreateCubicBezier *)

Definition three : Qc := Q2Qc 3.

(** Modelled from the spec: one coordinate of the point of parameter [t] of
    the cubic Bezier curve of section 4.1. *)
Definition equation (t val0 val1 val2 val3 : Qc) : Qc :=
  ((1 - t) * (1 - t) * (1 - t) * val0
   + three * t * (1 - t) * (1 - t) * val1
   + three * t * t * (1 - t) * val2
   + t * t * t * val3)%Qc.

(** Modelled from the spec: the point of parameter [t] of the cubic Bezier
    curve defined by the four control points. *)
Definition bezierPoint (start ctrl1 ctrl2 end_ : Vector3) (t : Qc) : Vector3 :=
  mkVector3 (equation t (x start) (x ctrl1) (x ctrl2) (x end_))
            (equation t (y start) (y ctrl1) (y ctrl2) (y end_))
            (equation t (z start) (z ctrl1) (z ctrl2) (z end_)).

(** Modelled from the spec: [Curve3.CreateCubicBezier] is the rendering
    engine's and not part of the sources.  Section 4.1: [sample(start,
    ctrl1, ctrl2, end, count)] is the ordered sequence of [count + 1] points
    of the cubic Bezier curve of the four control points, parameterized
    uniformly over [0,1]; [count < 1] is invalid input and an error. *)
Definition sample (start ctrl1 ctrl2 end_ : Vector3) (count : Z)
  : completion (list Vector3) :=
  if (count <? 1)%Z then Thrown InvalidSampleCount
  else Returned
    (map (fun i : nat =>
            bezierPoint start ctrl1 ctrl2 end_ (Qc_of_Z (Z.of_nat i) / Qc_of_Z count)%Qc)
         (seq 0 (S (Z.to_nat count)))).

(** [Curve3.CreateCubicBezier(c.v0, c.v1, c.v2, c.v3, c.nbPoints)]. *)
Definition CreateCubicBezier (c : IPath3DMeshCurve) : M (list Vector3) :=
  p0 ← readVector (v0 c);
  p1 ← readVector (v1 c);
  p2 ← readVector (v2 c);
  p3 ← readVector (v3 c);
  lift (sample p0 p1 p2 p3 (nbPoints c)).

(** ** Path3DMesh (path3d.ts) *)

(** [updateCurve(curve)], the curve object being the one at [index] of
    [curves]. *)
Definition updateCurve (index : nat) : M unit :=
  cs ← gets curves;
  c ← defined (cs !! index);
  pts ← CreateCubicBezier c;
  modify (set_curves (alter (setCurve (Some pts)) index)).

Definition buildCurves : M unit :=
  cs ← gets curves;
  forEach (fun (_ : unit) c index =>
             pts ← CreateCubicBezier c;
             modify (set_curves (alter (setCurve (Some pts)) index)))
          cs 0%nat tt.

Definition getFinalCurvePoints : M (list Vector3) :=
  buildCurves;;
  cs ← gets curves;
  forEach (fun (points : list Vector3) c (_ : nat) =>
             pts ← defined (curve c);
             mret (points ++ pts))
          cs 0%nat [].

(** ** Helpers *)

Definition newMesh (m : AbstractMesh) : M ref :=
  ms ← gets meshes;
  modify (set_meshes (fun ms => ms ++ [m]));;
  mret (length ms).

(** [MeshBuilder.CreateSphere("helper", ...)]. *)
Definition CreateSphere : M ref := newMesh (mkMesh Zero false None None).

(** [source.createInstance("helper")]. *)
Definition createInstance (source : ref) : M ref :=
  newMesh (mkMesh Zero false (Some source) None).

(** [mesh.dispose()]. *)
Definition dispose (h : ref) : M unit :=
  modify (set_meshes (alter setDisposed h)).

(** [mesh.position.copyFrom(p)]. *)
Definition moveTo (h : ref) (p : Vector3) : M unit :=
  modify (set_meshes (alter (setPosition p) h)).

(** Modelled from the spec: [SceneFactory._SetMeshAsHelper] is not part of
    the sources.  It attaches the drag callback to the helper; the callback
    is the closure of [_getHelper] over [index] and [helper], recorded by
    its index. *)
Definition _SetMeshAsHelper (helper : ref) (index : nat) : M unit :=
  modify (set_meshes (alter (setOnMoved index) helper)).

Definition _getHelper (index : nat) : M ref :=
  hs ← gets _helpers;
  helper ← match hs !! index with
           | Some h => mret h
           | None =>
               hr ← gets _helperRef;
               match hr with
               | Some source => createInstance source
               | None => h ← CreateSphere; modify (set_helperRef (Some h));; mret h
               end
           end;
  modify (set_helpers (fun hs => hs ++ [helper]));;
  _SetMeshAsHelper helper index;;
  mret helper.

(** [for (let i = ...; i > this.curves.length; i--)] of [_showHelpers]. *)
Fixpoint removeLastHelpers (i : nat) : M unit :=
  match i with
  | O => mret tt
  | S i' =>
      n ← gets (fun s => length (curves s));
      if decide (n < i)%nat then
        hs ← gets _helpers;
        h ← defined (hs !! i);
        dispose h;;
        modify (set_helpers (delete i));;
        removeLastHelpers i'
      else mret tt
  end.

Definition _showHelpers : M unit :=
  points ← getFinalCurvePoints;
  cs ← gets curves;
  forEach (fun (curveStart : Z) c index =>
             s ← _getHelper index;
             p ← defined (at_index points curveStart);
             moveTo s p;;
             mret (curveStart + nbPoints c)%Z)
          cs 0%nat 0%Z;;
  s ← _getHelper (length cs);
  p ← defined (at_index points (Z.of_nat (length points) - 1));
  moveTo s p;;
  hs ← gets _helpers;
  removeLastHelpers (length hs - 1).

Definition _hideHelpers : M unit :=
  hs ← gets _helpers;
  forEach (fun (_ : unit) h (_ : nat) => dispose h) hs 0%nat tt;;
  modify (set_helpers (fun _ => []));;
  modify (set_helperRef None).

Definition _updateCurveGeometry (updateHelpers : bool) : M unit :=
  points ← getFinalCurvePoints;
  c ← gets color;
  modify (set_geometry
            (mkVertexData [points]
               [map (fun _ => mkColor4 (r c) (g c) (b c) 1%Qc) points]));;
  visible ← gets isVisible;
  if updateHelpers && visible then _showHelpers else mret tt.

Definition updateCurveGeometry : M unit := _updateCurveGeometry true.

Definition show : M unit :=
  modify (set_isVisible true);;
  _showHelpers.

Definition hide : M unit :=
  modify (set_isVisible false);;
  _hideHelpers.

(** The callback [_getHelper(index)] attaches to [helper]; [p0] and [p3] are
    its locals [v0] and [v3]. *)
Definition helperCallback (index : nat) (helper : ref) : M unit :=
  cs ← gets curves;
  '(p0, p3) ←
    (if decide (index = length cs) then
       c ← defined (if decide (index = 0)%nat then None else cs !! (index - 1)%nat);
       mret (None, Some (v3 c))
     else if decide (0 < index)%nat then
       c ← defined (cs !! index);
       c' ← defined (cs !! (index - 1)%nat);
       mret (Some (v0 c), Some (v3 c'))
     else
       c ← defined (cs !! index);
       mret (Some (v0 c), None));
  ms ← gets meshes;
  h ← defined (ms !! helper);
  copyFrom p0 (position h);;
  copyFrom p3 (position h);;
  _updateCurveGeometry false.

(** Modelled from the spec: the drag is the engine's.  It moves the helper
    pooled at [slot] to [p] and runs the callback attached to the helper
    (the handle-drag callback of section 4.2). *)
Definition dragHelper (slot : nat) (p : Vector3) : M unit :=
  hs ← gets _helpers;
  match hs !! slot with
  | None => mret tt
  | Some helper =>
      moveTo helper p;;
      ms ← gets meshes;
      match ms !! helper ≫= onMoved with
      | Some index => helperCallback index helper
      | None => mret tt
      end
  end.

(** ** Construction *)

(** The object after the field initialisers: eight new [Vector3], two
    curves, no helper.  [isVisible] and [color] hold the engine's defaults,
    both overwritten by the constructor. *)
Definition fields : Path3DMesh :=
  mkPath3DMesh
    [ vec3 0 1 0 1 0 1; vec3 5 2 5 2 (-1) 2; vec3 3 2 2 1 (-1) 1; vec3 1 1 1 1 1 1;
      vec3 1 1 1 1 1 1; vec3 5 2 5 2 (-1) 2; vec3 3 2 2 1 (-1) 1; vec3 0 1 3 1 0 1 ]
    []
    [ mkCurve None 10 0 1 2 3; mkCurve None 10 4 5 6 7 ]
    [] None true (mkColor3 1 1 1)%Qc None.

Definition constructor : M unit :=
  modify (set_color (mkColor3 1 0 0)%Qc);;
  hide;;
  buildCurves;;
  updateCurveGeometry.

(** [new Path3DMesh(name, scene)]. *)
Definition new_Path3DMesh : Path3DMesh := snd (constructor fields).

(** ** Path3DInspector (path3d-inspector.tsx) *)

(** The [onClick] of the "Remove" item: [curves.splice(id, 1)] and a
    redraw. *)
Definition removeClicked (id : nat) : M unit :=
  modify (set_curves (delete id));;
  updateCurveGeometry.

(** [_handleCurveNodeContextMenu(node, ev)] followed by a click on "Remove";
    with one curve left the menu is not opened. *)
Definition removeSegment (id : nat) : M unit :=
  cs ← gets curves;
  if decide (length cs ≤ 1)%nat then mret tt else removeClicked id.

Inductive PointField := StartPoint | EndPoint | ControlPoint1 | ControlPoint2.

Definition pointOf (f : PointField) (c : IPath3DMeshCurve) : ref :=
  match f with
  | StartPoint => v0 c
  | EndPoint => v3 c
  | ControlPoint1 => v1 c
  | ControlPoint2 => v2 c
  end.

(** Modelled from the spec: [InspectorVector3] is not part of the sources.
    Section 6: it mutates the coordinates of one control point of the
    selected segment, in place; its [onChange] is
    [updateCurveGeometry()]. *)
Definition editPoint (index : nat) (f : PointField) (p : Vector3) : M unit :=
  cs ← gets curves;
  c ← defined (cs !! index);
  copyFrom (Some (pointOf f c)) p;;
  updateCurveGeometry.

(** ** The tree of the inspector (path3d-inspector.tsx) *)

(** The label of a node, a template literal, by the values it is made of:
    the index of the curve, the coordinates of its start point and the [x]
    of its end point, as they were when the label was made.  How a
    [number] is written as text is left out. *)
Record Label := mkLabel {
  shownIndex : nat;
  shownX : Qc;
  shownY : Qc;
  shownZ : Qc;
  shownEndX : Qc;
}.

(** [TreeNodeInfo<IPath3DMeshCurve>].  [nodeData] is the curve object
    itself; what the inspector reads through it are the control points,
    which nothing reassigns, so the node is given the curve without the
    cache that [updateCurve] replaces. *)
Module TreeNodeInfo.

Record t := mk {
  id : nat;
  label : Label;
  nodeData : IPath3DMeshCurve;
  isSelected : bool;
}.

Definition select (b : bool) (n : t) : t := mk (id n) (label n) (nodeData n) b.

End TreeNodeInfo.

(** The inspector: the path it edits and its React state.  [selectedCurve]
    holds one of the node objects of [state.curves], given by its
    position. *)
Record Path3DInspector := mkInspector {
  selectedObject : Path3DMesh;
  state_curves : list TreeNodeInfo.t;
  state_selectedCurve : option nat;
}.

Definition IM (A : Type) : Type :=
  Path3DInspector -> completion A * Path3DInspector.

(** A method of the path, called from the inspector. *)
Definition onSelectedObject {A} (m : M A) : IM A := fun i =>
  (fst (m (selectedObject i)),
   mkInspector (snd (m (selectedObject i))) (state_curves i)
     (state_selectedCurve i)).

Definition andThen {A B} (m : IM A) (f : A -> IM B) : IM B := fun i =>
  match m i with
  | (Returned a, i') => f a i'
  | (Thrown e, i') => (Thrown e, i')
  end.

(** [this.setState({ curves, selectedCurve })]. *)
Definition setState (nodes : list TreeNodeInfo.t) (selected : option nat)
  : IM unit :=
  fun i => (Returned tt, mkInspector (selectedObject i) nodes selected).

Definition _getTreeNodePointsInfo : M (list TreeNodeInfo.t) :=
  cs ← gets curves;
  forEach (fun (nodes : list TreeNodeInfo.t) c i =>
             p0 ← readVector (v0 c);
             p3 ← readVector (v3 c);
             mret (nodes
                   ++ [TreeNodeInfo.mk i
                         (mkLabel i (x p0) (y p0) (z p0) (x p3))
                         (setCurve None c) false]))
          cs 0%nat [].

(** [new Path3DInspector(props)], [object] being the path of the props. *)
Definition new_Path3DInspector (object : Path3DMesh)
  : completion unit * Path3DInspector :=
  andThen (onSelectedObject _getTreeNodePointsInfo)
    (fun nodes => setState nodes None)
    (mkInspector object [] None).

Definition componentDidMount : IM unit := onSelectedObject show.

Definition componentWillUnmount : IM unit := onSelectedObject hide.

(** [_handleCurveNodeClicked(node)], [node] being the node at [k] of the
    tree. *)
Definition _handleCurveNodeClicked (k : nat) : IM unit := fun i =>
  let nodes := map (TreeNodeInfo.select false) (state_curves i) in
  match nodes !! k with
  | Some _ =>
      setState (alter (TreeNodeInfo.select true) k nodes) (Some k)
        (mkInspector (selectedObject i) nodes (state_selectedCurve i))
  | None =>
      (Thrown TypeError,
       mkInspector (selectedObject i) nodes (state_selectedCurve i))
  end.

(** [_handleCurveNodeContextMenu(node, ev)] on the node at [k] of the tree,
    followed by a click on "Remove"; with one curve left the menu is not
    opened. *)
Definition _handleCurveNodeContextMenu (k : nat) : IM unit := fun i =>
  if decide (length (curves (selectedObject i)) ≤ 1)%nat then (Returned tt, i)
  else
    match state_curves i !! k with
    | Some node =>
        andThen (onSelectedObject (removeClicked (TreeNodeInfo.id node)))
          (fun _ =>
             andThen (onSelectedObject _getTreeNodePointsInfo)
               (fun nodes => setState nodes None))
          i
    | None => (Thrown TypeError, i)
    end.

(** The fields [getSelectedPointInspector()] renders: none without a
    selected curve, and one for each of [v0], [v3], [v1], [v2] of the
    curve of the selected node otherwise.  Modelled from the spec:
    [InspectorVector3] is not part of the sources.  Section 6: it mutates
    the coordinates of the control point in place; its [onChange] is
    [updateCurveGeometry()]. *)
Definition getSelectedPointInspector (f : PointField) (p : Vector3)
  : IM unit := fun i =>
  match state_selectedCurve i with
  | None => (Returned tt, i)
  | Some k =>
      match state_curves i !! k with
      | Some node =>
          onSelectedObject
            (copyFrom (Some (pointOf f (TreeNodeInfo.nodeData node))) p;;
             updateCurveGeometry)
            i
      | None => (Thrown TypeError, i)
      end
  end.

(** ** What happens to an inspector *)

Inductive Event :=
  | Mount
  | Unmount
  | Click (k : nat)
  | RemoveOn (k : nat)
  | EditField (f : PointField) (p : Vector3)
  | Drag (slot : nat) (p : Vector3).

Definition handle (e : Event) : IM unit :=
  match e with
  | Mount => componentDidMount
  | Unmount => componentWillUnmount
  | Click k => _handleCurveNodeClicked k
  | RemoveOn k => _handleCurveNodeContextMenu k
  | EditField f p => getSelectedPointInspector f p
  | Drag slot p => onSelectedObject (dragHelper slot p)
  end.

(** The inspector after a sequence of events; a handler that throws leaves
    the state it reached. *)
Definition after (es : list Event) (i : Path3DInspector) : Path3DInspector :=
  foldl (fun i e => snd (handle e i)) i es.

(** The inspector made for the path [s], after the events [es]. *)
Definition inspect (s : Path3DMesh) (es : list Event) : Path3DInspector :=
  after es (snd (new_Path3DInspector s)).

(** ** The channels of the inter-process messages (shared/ipc.ts) *)

Delimit Scope string_scope with string.

(** [enum IPCRequests]: a member and the string it stands for. *)
Module IPCRequests.

Inductive t :=
  | OpenWindowOnDemand
  | OpenFileDialog | SaveFileDialog | OpenDirectoryDialog
  | GetProjectPath | SetProjectPath
  | GetWorkspacePath | SetWorkspacePath
  | GetAppPath | GetWindowId
  | StartGameServer
  | FocusWindow | CloseWindow | SendWindowMessage
  | OpenDevTools | EnableDevTools
  | SetTouchBar.

Definition value (m : t) : String.string :=
  match m with
  | OpenWindowOnDemand => "openwindowondemand"
  | OpenFileDialog => "openfiledialog"
  | SaveFileDialog => "savefiledialog"
  | OpenDirectoryDialog => "opendirectorydialog"
  | GetProjectPath => "getprojectpath"
  | SetProjectPath => "setprojectpath"
  | GetWorkspacePath => "getworkspacepath"
  | SetWorkspacePath => "setworkspacepath"
  | GetAppPath => "getapppath"
  | GetWindowId => "getwindowid"
  | StartGameServer => "startgameserver"
  | FocusWindow => "focuswindow"
  | CloseWindow => "closewindow"
  | SendWindowMessage => "sendwindowmessage"
  | OpenDevTools => "opendevtools"
  | EnableDevTools => "enabledevtools"
  | SetTouchBar => "settouchbar"
  end%string.

#[global] Instance request_eq_dec : EqDecision t.
Proof. solve_decision. Defined.

End IPCRequests.

(** [enum IPCResponses]. *)
Module IPCResponses.

Inductive t :=
  | OpenWindowOnDemand
  | OpenFileDialog | SaveFileDialog | OpenDirectoryDialog
  | CancelOpenFileDialog | CancelSaveFileDialog
  | GetProjectPath | SetProjectPath
  | GetWorkspacePath | SetWorkspacePath
  | GetAppPath | GetWindowId
  | StartGameServer
  | SendWindowMessage
  | EnableDevTools.

Definition value (m : t) : String.string :=
  match m with
  | OpenWindowOnDemand => "openwindowondemand"
  | OpenFileDialog => "openfiledialog"
  | SaveFileDialog => "savefiledialog"
  | OpenDirectoryDialog => "opendirectorydialog"
  | CancelOpenFileDialog => "cancelopenfiledialog"
  | CancelSaveFileDialog => "cancelsavefiledialog"
  | GetProjectPath => "getprojectpath"
  | SetProjectPath => "setprojectpath"
  | GetWorkspacePath => "getworkspacepath"
  | SetWorkspacePath => "setworkspacepath"
  | GetAppPath => "getapppath"
  | GetWindowId => "getwindowid"
  | StartGameServer => "startgameserver"
  | SendWindowMessage => "sendwindowmessage"
  | EnableDevTools => "enabledevtools"
  end%string.

#[global] Instance response_eq_dec : EqDecision t.
Proof. solve_decision. Defined.

End IPCResponses.

(** * Notions used in the statements *)

(** ** Sampled curves and the combined polyline *)

(** What [Curve3.CreateCubicBezier] yields for the curve [c] when the
    control points are read from the store [V]. *)
Definition curvePoints (V : list Vector3) (c : IPath3DMeshCurve)
  : completion (list Vector3) :=
  match V !! v0 c, V !! v1 c, V !! v2 c, V !! v3 c with
  | Some p0, Some p1, Some p2, Some p3 => sample p0 p1 p2 p3 (nbPoints c)
  | _, _, _, _ => Thrown TypeError
  end.

Definition pointsOf (V : list Vector3) (c : IPath3DMeshCurve) : list Vector3 :=
  match curvePoints V c with
  | Returned pts => pts
  | Thrown _ => []
  end.

(** The curve object after its cache has been rebuilt. *)
Definition rebuilt (V : list Vector3) (c : IPath3DMeshCurve) : IPath3DMeshCurve :=
  setCurve (Some (pointsOf V c)) c.

(** The combined polyline of the curves [cs]. *)
Definition polyline (V : list Vector3) (cs : list IPath3DMeshCurve)
  : list Vector3 :=
  concat (map (pointsOf V) cs).

(** The vertex data pushed to the geometry for the polyline [points]. *)
Definition lineSystem (c : Color3) (points : list Vector3) : VertexData :=
  mkVertexData [points] [map (fun _ => mkColor4 (r c) (g c) (b c) 1%Qc) points].

(** ** Valid paths *)

(** A curve whose four control points are objects of the store and whose
    sample count is at least 1. *)
Definition validCurve (V : list Vector3) (c : IPath3DMeshCurve) : Prop :=
  (v0 c < length V)%nat ∧ (v1 c < length V)%nat ∧ (v2 c < length V)%nat ∧
  (v3 c < length V)%nat ∧ (1 ≤ nbPoints c)%Z.

(** The four control points of the curve are objects of the store. *)
Definition pointsInStore (V : list Vector3) (c : IPath3DMeshCurve) : Prop :=
  (v0 c < length V)%nat ∧ (v1 c < length V)%nat ∧ (v2 c < length V)%nat ∧
  (v3 c < length V)%nat.

(** A path with at least one curve, all of them valid, whose pooled helpers
    are objects of the store. *)
Definition validPath (s : Path3DMesh) : Prop :=
  (1 ≤ length (curves s))%nat ∧
  Forall (validCurve (vectors s)) (curves s) ∧
  Forall (fun h : ref => (h < length (meshes s))%nat) (_helpers s).

Definition validTarget (V : list Vector3) (t : option ref) : Prop :=
  match t with
  | Some p => (p < length V)%nat
  | None => True
  end.

(** The pool of a visible path has one helper per curve and one more; the
    pool of a hidden path is empty. *)
Definition pooled (s : Path3DMesh) : Prop :=
  validPath s ∧
  if isVisible s then length (_helpers s) = S (length (curves s))
  else _helpers s = [].

(** ** The states the methods reach *)

(** The meshes after [dispose()] of every helper of [hs], last one first. *)
Definition disposeAll (hs : list ref) (ms : list AbstractMesh)
  : list AbstractMesh :=
  foldr (fun h => alter setDisposed h) ms hs.

(** The helper [_getHelper(index)] returns: the pooled one, or a new
    object. *)
Definition helperFor (index : nat) (s : Path3DMesh) : ref :=
  match _helpers s !! index with
  | Some h => h
  | None => length (meshes s)
  end.

Definition afterGetHelper (index : nat) (s : Path3DMesh) : Path3DMesh :=
  let h := helperFor index s in
  mkPath3DMesh (vectors s)
    (alter (setOnMoved index) h
       (match _helpers s !! index with
        | Some _ => meshes s
        | None => meshes s ++ [mkMesh Zero false (_helperRef s) None]
        end))
    (curves s)
    (_helpers s ++ [h])
    (match _helpers s !! index, _helperRef s with
     | None, None => Some h
     | _, hr => hr
     end)
    (isVisible s) (color s) (_geometry s).

(** One round of the loop of [_showHelpers]: the helper of slot [index] is
    fetched and moved to [p]. *)
Definition placeHelper (index : nat) (p : Vector3) (s : Path3DMesh) : Path3DMesh :=
  set_meshes (alter (setPosition p) (helperFor index s)) (afterGetHelper index s).

(** The value of [curveStart] when the loop reaches the curve [k]. *)
Definition curveStartAt (cs : list IPath3DMeshCurve) (k : nat) : Z :=
  foldr Z.add 0%Z (map nbPoints (take k cs)).

(** What the loop of [_showHelpers] maintains, [s0] being the state it
    starts in and [k] the number of helpers fetched so far. *)
Definition placing (s0 : Path3DMesh) (k : nat) (s : Path3DMesh) : Prop :=
  vectors s = vectors s0 ∧ curves s = curves s0 ∧ isVisible s = isVisible s0 ∧
  color s = color s0 ∧ _geometry s = _geometry s0 ∧
  length (_helpers s) = (length (_helpers s0) + k)%nat ∧
  Forall (fun h : ref => (h < length (meshes s))%nat) (_helpers s) ∧
  (_helpers s0 = [] -> _helperRef s0 = None ->
     _helpers s = seq (length (meshes s0)) k ∧
     length (meshes s) = (length (meshes s0) + k)%nat ∧
     _helperRef s = (if decide (k = 0)%nat then None else Some (length (meshes s0))) ∧
     take (length (meshes s0)) (meshes s) = meshes s0 ∧
     Forall (fun h : ref => disposed <$> meshes s !! h = Some false) (_helpers s) ∧
     (forall j : nat, (j < k)%nat ->
        meshes s !! (length (meshes s0) + j)%nat ≫= onMoved = Some j)) ∧
  ((length (curves s0) < length (_helpers s0))%nat ->
     _helpers s = _helpers s0 ++ take k (_helpers s0) ∧
     map disposed (meshes s) = map disposed (meshes s0)).

(** What [_showHelpers] makes of the state [s]. *)
Definition shown (s s' : Path3DMesh) : Prop :=
  vectors s' = vectors s ∧
  curves s' = map (rebuilt (vectors s)) (curves s) ∧
  isVisible s' = isVisible s ∧ color s' = color s ∧
  _geometry s' = _geometry s ∧
  length (_helpers s') = S (length (curves s)) ∧
  Forall (fun h : ref => (h < length (meshes s'))%nat) (_helpers s') ∧
  (_helpers s = [] -> _helperRef s = None ->
     _helpers s' = seq (length (meshes s)) (S (length (curves s))) ∧
     take (length (meshes s)) (meshes s') = meshes s ∧
     Forall (fun h : ref => disposed <$> meshes s' !! h = Some false) (_helpers s') ∧
     (forall j : nat, (j ≤ length (curves s))%nat ->
        meshes s' !! (length (meshes s) + j)%nat ≫= onMoved = Some j)) ∧
  ((length (curves s) < length (_helpers s))%nat ->
     _helpers s' = take (S (length (curves s))) (_helpers s) ∧
     length (meshes s') = length (meshes s) ∧
     Forall (fun h : ref => disposed <$> meshes s' !! h = Some true) (_helpers s)).

(** The state [hide()] leaves. *)
Definition hidden (s : Path3DMesh) : Path3DMesh :=
  mkPath3DMesh (vectors s) (disposeAll (reverse (_helpers s)) (meshes s))
    (curves s) [] None false (color s) (_geometry s).

(** The state after the geometry has been rebuilt and pushed. *)
Definition redrawn (s : Path3DMesh) : Path3DMesh :=
  set_geometry (lineSystem (color s) (polyline (vectors s) (curves s)))
    (set_curves (map (rebuilt (vectors s))) s).

(** The state after [target.copyFrom(v)]. *)
Definition written (target : option ref) (v : Vector3) (s : Path3DMesh)
  : Path3DMesh :=
  match target with
  | Some p => set_vectors (<[p := v]>) s
  | None => s
  end.

(** The control points the callback of slot [index] writes to: the start
    point of the curve that begins at the slot and the end point of the
    curve that ends there. *)
Definition targets (cs : list IPath3DMeshCurve) (index : nat)
  : option (option ref * option ref) :=
  if decide (index = length cs) then
    match index with
    | O => None
    | S i => c ← cs !! i; Some (None, Some (v3 c))
    end
  else
    match index with
    | O => c ← cs !! index; Some (Some (v0 c), None)
    | S i => c ← cs !! index; c' ← cs !! i; Some (Some (v0 c), Some (v3 c'))
    end.

(** ** Operations *)

(** The operations a user performs on a path through the editor. *)
Inductive Op :=
  | OpShow
  | OpHide
  | OpDrag (slot : nat) (p : Vector3)
  | OpRemove (id : nat)
  | OpEdit (index : nat) (f : PointField) (p : Vector3).

Definition perform (o : Op) : M unit :=
  match o with
  | OpShow => show
  | OpHide => hide
  | OpDrag slot p => dragHelper slot p
  | OpRemove id => removeSegment id
  | OpEdit index f p => editPoint index f p
  end.

(** The state after a sequence of operations; an operation that throws
    leaves the state it reached. *)
Definition run (ops : list Op) (s : Path3DMesh) : Path3DMesh :=
  foldl (fun s o => snd (perform o s)) s ops.

(** ** Handles and joints *)

(** The positions of the pooled helpers, slot by slot. *)
Definition helperPositions (s : Path3DMesh) : list (option Vector3) :=
  map (fun h : ref => position <$> meshes s !! h) (_helpers s).

(** The positions [_showHelpers] derives from the combined polyline: for
    each curve the point at its [curveStart], and the last point. *)
Definition derivedPositions (s : Path3DMesh) : list (option Vector3) :=
  let points := polyline (vectors s) (curves s) in
  map (fun k : nat => at_index points (curveStartAt (curves s) k))
      (seq 0 (length (curves s)))
  ++ [at_index points (Z.of_nat (length points) - 1)].

(** The control-point objects of the curves of a path. *)
Definition controlPoints (s : Path3DMesh) : list ref :=
  curves s ≫= (fun c => [v0 c; v1 c; v2 c; v3 c]).

(** Every adjacent pair of curves shares the object of its joint. *)
Definition jointsShared (s : Path3DMesh) : Prop :=
  forall i c c', curves s !! i = Some c -> curves s !! S i = Some c' ->
    v3 c = v0 c'.

(** ** Caches, new helpers and the tree of the inspector *)

(** The caches and the geometry agree with the control points: every curve
    caches the samples of its control points as they are, and the geometry
    holds the vertex data of their combined polyline. *)
Definition synced (s : Path3DMesh) : Prop :=
  curves s = map (rebuilt (vectors s)) (curves s) ∧
  _geometry s
  = Some (lineSystem (color s) (polyline (vectors s) (curves s))).

(** The point [_showHelpers] reads for the slot [j] from the combined
    polyline [points]. *)
Definition handlePoint (points : list Vector3) (cs : list IPath3DMeshCurve)
  (j : nat) : Vector3 :=
  default Zero
    (if decide (j < length cs)%nat
     then at_index points (curveStartAt cs j)
     else at_index points (Z.of_nat (length points) - 1)).

(** The helper created for the slot [j]: [sphere] is the object created
    first. *)
Definition newHelper (points : list Vector3) (cs : list IPath3DMeshCurve)
  (sphere : ref) (j : nat) : AbstractMesh :=
  mkMesh (handlePoint points cs j) false
    (match j with O => None | S _ => Some sphere end)
    (Some j).

(** The meshes after the helpers pooled at the slots below [k] have been
    fetched again by [_showHelpers]: each has been given the callback of
    its slot and moved to the point of its slot. *)
Definition refetched (points : list Vector3) (cs : list IPath3DMeshCurve)
  (hs : list ref) (k : nat) (ms : list AbstractMesh) : list AbstractMesh :=
  foldl (fun ms j =>
           match hs !! j with
           | Some h =>
               alter (setPosition (handlePoint points cs j)) h
                 (alter (setOnMoved j) h ms)
           | None => ms
           end)
        ms (seq 0 k).

(** The pool is in order, no helper is pooled twice, and there is no
    sphere to make instances of while the pool is empty. *)
Definition tidy (s : Path3DMesh) : Prop :=
  pooled s ∧ NoDup (_helpers s) ∧ (_helpers s = [] -> _helperRef s = None).


(** The slots the callbacks of the pooled helpers were made for, helper by
    helper. *)
Definition callbacks (s : Path3DMesh) : list (option nat) :=
  map (fun h : ref => meshes s !! h ≫= onMoved) (_helpers s).

(** Every pooled helper has the callback of the slot it is pooled at. *)
Definition registered (s : Path3DMesh) : Prop :=
  callbacks s = map Some (seq 0 (length (_helpers s))).

(** The curve objects of a path, their caches left out. *)
Definition curveObjects (s : Path3DMesh) : list IPath3DMeshCurve :=
  map (setCurve None) (curves s).

(** The node [_getTreeNodePointsInfo] makes for the curve [c] at [i]. *)
Definition nodeFor (V : list Vector3) (i : nat) (c : IPath3DMeshCurve)
  : TreeNodeInfo.t :=
  let p0 := default Zero (V !! v0 c) in
  let p3 := default Zero (V !! v3 c) in
  TreeNodeInfo.mk i (mkLabel i (x p0) (y p0) (z p0) (x p3))
    (setCurve None c) false.

(** The tree shows the path: one node per curve, in order, the node at [k]
    numbered [k] and holding the curve at [k]; a node marked as selected is
    the selected one, and the selected one is a node of the tree. *)
Definition consistent (i : Path3DInspector) : Prop :=
  pooled (selectedObject i)
  ∧ map TreeNodeInfo.id (state_curves i)
    = seq 0 (length (curves (selectedObject i)))
  ∧ map TreeNodeInfo.nodeData (state_curves i) = curveObjects (selectedObject i)
  ∧ (forall k node, state_curves i !! k = Some node ->
       TreeNodeInfo.isSelected node = true -> state_selectedCurve i = Some k)
  ∧ (forall k, state_selectedCurve i = Some k ->
       (k < length (state_curves i))%nat).

(** ** Example paths *)

(** A path of three curves, constructed like the default one. *)
Definition threeCurves : Path3DMesh :=
  snd (constructor
    (mkPath3DMesh
       [ vec3 0 1 0 1 0 1; vec3 5 2 5 2 (-1) 2; vec3 3 2 2 1 (-1) 1; vec3 1 1 1 1 1 1;
         vec3 1 1 1 1 1 1; vec3 5 2 5 2 (-1) 2; vec3 3 2 2 1 (-1) 1; vec3 0 1 3 1 0 1;
         vec3 0 1 3 1 0 1; vec3 1 1 4 1 1 1; vec3 2 1 4 1 0 1; vec3 3 1 3 1 0 1 ]
       []
       [ mkCurve None 10 0 1 2 3; mkCurve None 10 4 5 6 7; mkCurve None 10 8 9 10 11 ]
       [] None true (mkColor3 1 1 1)%Qc None)).

(** The path of the field initialisers with the sample count of its second
    curve set to 0. *)
Definition zeroCount : Path3DMesh :=
  set_curves (fun _ => [ mkCurve None 10 0 1 2 3; mkCurve None 0 4 5 6 7 ]) fields.

(** ** Evaluation on concrete paths *)

(** Validity is decidable, so it is checked on a concrete path by
    evaluation. *)
#[global] Instance validCurve_dec V c : Decision (validCurve V c).
Proof. unfold validCurve. apply _. Defined.

#[global] Instance pointsInStore_dec V c : Decision (pointsInStore V c).
Proof. unfold pointsInStore. apply _. Defined.

#[global] Instance validPath_dec s : Decision (validPath s).
Proof. unfold validPath. apply _. Defined.

#[global] Instance pooled_dec s : Decision (pooled s).
Proof. unfold pooled. destruct (isVisible s); apply _. Defined.

#[global] Instance Vector3_eq_dec : EqDecision Vector3.
Proof. solve_decision. Defined.

#[global] Instance Color4_eq_dec : EqDecision Color4.
Proof. solve_decision. Defined.

#[global] Instance Color3_eq_dec : EqDecision Color3.
Proof. solve_decision. Defined.

#[global] Instance IPath3DMeshCurve_eq_dec : EqDecision IPath3DMeshCurve.
Proof. solve_decision. Defined.

#[global] Instance VertexData_eq_dec : EqDecision VertexData.
Proof. solve_decision. Defined.

#[global] Instance synced_dec s : Decision (synced s).
Proof. unfold synced. apply _. Defined.

#[global] Instance tidy_dec s : Decision (tidy s).
Proof. unfold tidy. apply _. Defined.

#[global] Instance Label_eq_dec : EqDecision Label.
Proof. solve_decision. Defined.

#[global] Instance TreeNodeInfo_eq_dec : EqDecision TreeNodeInfo.t.
Proof. solve_decision. Defined.

Ltac by_evaluation := apply (bool_decide_unpack _); vm_compute; exact I.

(** * Properties *)

(** Validity of the states the methods reach. *)
Create HintDb valid discriminated.

(** ** The monad *)

Ltac msimpl :=
  unfold mbind, M_bind, mret, M_ret, gets, modify, throw, defined, lift;
  cbn beta iota zeta.

Lemma bind_returned {A B} (m : M A) (f : A -> M B) s a s' :
  m s = (Returned a, s') -> (m ≫= f) s = f a s'.
Proof. intros H. unfold mbind, M_bind. by rewrite H. Qed.

Lemma bind_thrown {A B} (m : M A) (f : A -> M B) s e s' :
  m s = (Thrown e, s') -> (m ≫= f) s = (Thrown e, s').
Proof. intros H. unfold mbind, M_bind. by rewrite H. Qed.

(** ** Building the curves *)

Lemma CreateCubicBezier_eq c s :
  CreateCubicBezier c s = (curvePoints (vectors s) c, s).
Proof.
  unfold CreateCubicBezier, curvePoints, readVector. msimpl.
  destruct (vectors s !! v0 c); msimpl; [|done].
  destruct (vectors s !! v1 c); msimpl; [|done].
  destruct (vectors s !! v2 c); msimpl; [|done].
  destruct (vectors s !! v3 c); msimpl; done.
Qed.

Lemma curvePoints_valid V c :
  validCurve V c -> curvePoints V c = Returned (pointsOf V c).
Proof.
  intros (H0 & H1 & H2 & H3 & Hn). unfold pointsOf, curvePoints.
  apply lookup_lt_is_Some_2 in H0 as [p0 E0].
  apply lookup_lt_is_Some_2 in H1 as [p1 E1].
  apply lookup_lt_is_Some_2 in H2 as [p2 E2].
  apply lookup_lt_is_Some_2 in H3 as [p3 E3].
  rewrite E0, E1, E2, E3.
  unfold sample. destruct (Z.ltb_spec (nbPoints c) 1); [lia|done].
Qed.

Lemma buildCurves_from l : forall pre s,
  curves s = pre ++ l ->
  Forall (validCurve (vectors s)) l ->
  forEach (fun (_ : unit) c index =>
             pts ← CreateCubicBezier c;
             modify (set_curves (alter (setCurve (Some pts)) index)))
          l (length pre) tt s
  = (Returned tt, set_curves (fun _ => pre ++ map (rebuilt (vectors s)) l) s).
Proof.
  induction l as [|c l IH]; intros pre s Hcs Hval.
  - simpl. destruct s; simpl in *; subst. unfold set_curves; simpl.
    by rewrite app_nil_r.
  - inversion Hval as [|? ? Hc Hl]; subst.
    cbn [forEach].
    erewrite bind_returned; last first.
    { erewrite bind_returned; [|by rewrite CreateCubicBezier_eq, curvePoints_valid].
      reflexivity. }
    set (s1 := set_curves _ s).
    assert (Hcs1 : curves s1 = (pre ++ [rebuilt (vectors s) c]) ++ l).
    { unfold s1; simpl. rewrite Hcs.
      replace (length pre) with (length pre + 0)%nat by lia.
      rewrite alter_app_r. simpl. by rewrite <- app_assoc. }
    specialize (IH (pre ++ [rebuilt (vectors s) c]) s1 Hcs1 Hl).
    rewrite length_app in IH; simpl in IH.
    replace (length pre + 1)%nat with (S (length pre)) in IH by lia.
    rewrite IH. unfold s1, set_curves; simpl. by rewrite <- app_assoc.
Qed.

Lemma buildCurves_eq s :
  Forall (validCurve (vectors s)) (curves s) ->
  buildCurves s = (Returned tt, set_curves (map (rebuilt (vectors s))) s).
Proof.
  intros Hval. unfold buildCurves. msimpl.
  exact (buildCurves_from (curves s) [] s eq_refl Hval).
Qed.

Lemma collect_rebuilt V l : forall index acc s,
  forEach (fun (points : list Vector3) c (_ : nat) =>
             pts ← defined (curve c);
             mret (points ++ pts))
          (map (rebuilt V) l) index acc s
  = (Returned (acc ++ polyline V l), s).
Proof.
  induction l as [|c l IH]; intros index acc s; simpl.
  - unfold polyline; simpl. by rewrite app_nil_r.
  - erewrite bind_returned; [|reflexivity].
    rewrite IH. unfold polyline; simpl. by rewrite app_assoc.
Qed.

Lemma getFinalCurvePoints_eq s :
  Forall (validCurve (vectors s)) (curves s) ->
  getFinalCurvePoints s
  = (Returned (polyline (vectors s) (curves s)),
     set_curves (map (rebuilt (vectors s))) s).
Proof.
  intros Hval. unfold getFinalCurvePoints.
  erewrite bind_returned; [|by apply buildCurves_eq].
  msimpl. exact (collect_rebuilt _ _ _ _ _).
Qed.

Lemma validCurve_rebuilt V V' c : validCurve V c -> validCurve V (rebuilt V' c).
Proof. done. Qed.

Lemma Forall_validCurve_rebuilt V V' cs :
  Forall (validCurve V) cs -> Forall (validCurve V) (map (rebuilt V') cs).
Proof.
  intros H. apply Forall_map. eapply Forall_impl; [|exact H].
  intros c Hc. by apply validCurve_rebuilt.
Qed.

Lemma polyline_rebuilt V V' cs : polyline V (map (rebuilt V') cs) = polyline V cs.
Proof. unfold polyline. by rewrite map_map. Qed.

(** The redraw that leaves the helpers alone. *)
Lemma _updateCurveGeometry_false_eq s :
  Forall (validCurve (vectors s)) (curves s) ->
  _updateCurveGeometry false s
  = (Returned tt,
     set_geometry (lineSystem (color s) (polyline (vectors s) (curves s)))
       (set_curves (map (rebuilt (vectors s))) s)).
Proof.
  intros Hval. unfold _updateCurveGeometry.
  erewrite bind_returned; [|by apply getFinalCurvePoints_eq].
  done.
Qed.

(** ** The pool of helpers *)

Lemma _getHelper_eq index s :
  _getHelper index s = (Returned (helperFor index s), afterGetHelper index s).
Proof.
  unfold _getHelper, afterGetHelper, helperFor, createInstance, CreateSphere, newMesh,
    _SetMeshAsHelper.
  msimpl. destruct (_helpers s !! index) as [h|]; [reflexivity|].
  msimpl. destruct (_helperRef s) as [src|] eqn:Hr;
    unfold set_meshes, set_helpers, set_helperRef; simpl; by rewrite ?Hr.
Qed.

Lemma lookup_disposeAll hs : forall (ms : list AbstractMesh) (h : ref),
  disposeAll hs ms !! h
  = (if decide (h ∈ hs) then setDisposed <$> ms !! h else ms !! h).
Proof.
  induction hs as [|a hs IH]; intros ms h; cbn [disposeAll foldr].
  - case_decide as Hin; [by apply elem_of_nil in Hin|done].
  - fold (disposeAll hs ms). destruct (decide (a = h)) as [->|Hne].
    + rewrite list_lookup_alter_eq, IH.
      rewrite (decide_True (P := h ∈ h :: hs)) by apply list_elem_of_here.
      case_decide; [|done].
      by destruct (ms !! h) as [[]|].
    + rewrite list_lookup_alter_ne, IH by done.
      repeat case_decide; try done.
      * exfalso. by apply H0, list_elem_of_further.
      * exfalso. apply elem_of_cons in H0 as [->|]; done.
Qed.

Lemma length_disposeAll hs (ms : list AbstractMesh) :
  length (disposeAll hs ms) = length ms.
Proof. induction hs; simpl; [done|]. by rewrite length_alter. Qed.

Lemma disposeAll_app hs1 hs2 (ms : list AbstractMesh) :
  disposeAll (hs1 ++ hs2) ms = disposeAll hs1 (disposeAll hs2 ms).
Proof. unfold disposeAll. by rewrite foldr_app. Qed.

(** The pruning loop of [_showHelpers], started at the last slot of the
    pool: the pool is cut down to [curves.length + 1] helpers and every
    helper cut off is disposed. *)
Lemma removeLastHelpers_eq i : forall s,
  length (_helpers s) = S i ->
  removeLastHelpers i s
  = (Returned tt,
     set_meshes (disposeAll (drop (S (length (curves s))) (_helpers s)))
       (set_helpers (take (S (length (curves s)))) s)).
Proof.
  induction i as [|i IH]; intros s Hlen.
  - destruct s as [V ms cs hs hr vis col geo]; simpl in *.
    destruct hs as [|h [|]]; simpl in *; try lia.
    unfold mret, M_ret, set_meshes, set_helpers; simpl.
    rewrite take_nil, drop_nil. reflexivity.
  - cbn [removeLastHelpers]. msimpl.
    destruct (decide (length (curves s) < S i)%nat) as [Hlt|Hge].
    + destruct (lookup_lt_is_Some_2 (_helpers s) (S i)) as [h Hh]; [lia|].
      rewrite Hh. unfold dispose. msimpl.
      rewrite IH; last first.
      { simpl. rewrite length_delete by eauto. lia. }
      destruct s as [V ms cs hs hr vis col geo]; simpl in *.
      unfold set_meshes, set_helpers; simpl. f_equal.
      assert (Hsplit : hs = take (S i) hs ++ [h]).
      { rewrite <- (take_drop (S i) hs) at 1. f_equal.
        rewrite (drop_S _ _ _ Hh).
        rewrite drop_ge by lia. done. }
      assert (Hdel : delete (S i) hs = take (S i) hs).
      { rewrite Hsplit at 1.
        replace (S i) with (length (take (S i) hs)) at 1
          by (rewrite length_take; lia).
        rewrite delete_middle. by rewrite app_nil_r. }
      assert (Hdrop : drop (S (length cs)) hs
                      = drop (S (length cs)) (take (S i) hs) ++ [h]).
      { rewrite Hsplit at 1. rewrite drop_app_le by (rewrite length_take; lia).
        done. }
      rewrite Hdel, Hdrop, disposeAll_app.
      rewrite take_take.
      replace (S (length cs) `min` S i)%nat with (S (length cs)) by lia.
      reflexivity.
    + destruct s as [V ms cs hs hr vis col geo]; simpl in *.
      unfold set_meshes, set_helpers; simpl.
      rewrite take_ge, drop_ge by lia. reflexivity.
Qed.

Lemma forEach_inv {A L} (f : L -> A -> nat -> M L)
    (I : nat -> L -> Path3DMesh -> Prop) (l : list A) : forall i acc s,
  (forall k a acc s, l !! k = Some a -> I (i + k)%nat acc s ->
     exists acc' s', f acc a (i + k)%nat s = (Returned acc', s')
                     ∧ I (S (i + k)) acc' s') ->
  I i acc s ->
  exists acc' s', forEach f l i acc s = (Returned acc', s')
                  ∧ I (i + length l)%nat acc' s'.
Proof.
  induction l as [|a l IH]; intros i acc s Hstep HI.
  - exists acc, s. split; [done|]. simpl. by replace (i + 0)%nat with i by lia.
  - destruct (Hstep 0%nat a acc s eq_refl) as (acc1 & s1 & Hf & HI1).
    { by replace (i + 0)%nat with i by lia. }
    replace (i + 0)%nat with i in * by lia.
    destruct (IH (S i) acc1 s1) as (acc2 & s2 & Hl & HI2); [|done|].
    { intros k b acc' s' Hb HI'.
      replace (S i + k)%nat with (i + S k)%nat in * by lia.
      by apply (Hstep (S k)). }
    exists acc2, s2. split.
    + cbn [forEach]. by erewrite bind_returned.
    + simpl. by replace (i + S (length l))%nat with (S i + length l)%nat by lia.
Qed.

Lemma map_alter_fixed {A B} (g : A -> B) (f : A -> A) (l : list A) (i : nat) :
  (forall a, g (f a) = g a) -> map g (alter f i l) = map g l.
Proof.
  intros Hgf. revert i. induction l as [|a l IH]; intros [|i]; simpl; try done.
  - by rewrite Hgf.
  - f_equal. apply IH.
Qed.

Lemma placing_start s0 :
  Forall (fun h : ref => (h < length (meshes s0))%nat) (_helpers s0) ->
  placing s0 0 s0.
Proof.
  intros Hh. unfold placing. repeat split; try done.
  - by rewrite take_ge by lia.
  - rewrite H. constructor.
  - lia.
  - by rewrite take_0, app_nil_r.
Qed.

Lemma placing_step s0 k p s :
  placing s0 k s -> (k ≤ length (curves s0))%nat ->
  placing s0 (S k) (placeHelper k p s).
Proof.
  intros (HV & Hcs & Hvis & Hcol & Hgeo & Hlen & Hval & Hfresh & Hold) Hk.
  unfold placing, placeHelper, afterGetHelper, helperFor, set_meshes;
    cbn [vectors meshes curves _helpers _helperRef isVisible color _geometry].
  destruct (_helpers s !! k) as [h|] eqn:Hh.
  - assert (Hhv : (h < length (meshes s))%nat).
    { eapply Forall_forall in Hval; [exact Hval|].
      apply list_elem_of_In, list_elem_of_lookup. eauto. }
    split_and!; [done|done|done|done|done| | | intros H1 H2 | intros H1].
    + rewrite length_app; simpl. lia.
    + rewrite !length_alter. apply Forall_app. split; [done|]. by constructor.
    + exfalso. apply lookup_lt_Some in Hh. rewrite Hlen, H1 in Hh. simpl in Hh. lia.
    + destruct (Hold H1) as (Hs & Hd). split.
      * rewrite Hs. rewrite <- app_assoc. f_equal.
        rewrite Hs in Hh. rewrite lookup_app_l in Hh by lia.
        by erewrite take_S_r.
      * rewrite <- Hd. rewrite !map_alter_fixed; done.
  - set (new := mkMesh Zero false (_helperRef s) None).
    split_and!; [done|done|done|done|done| | | intros H1 H2 | intros H1].
    + rewrite length_app; simpl. lia.
    + rewrite !length_alter, length_app; simpl. apply Forall_app. split.
      * eapply Forall_impl; [|exact Hval]. simpl. intros; lia.
      * constructor; [lia|constructor].
    + destruct (Hfresh H1 H2) as (Hs & Hm & Hr & Ht & Hd & Hcb).
      split_and!.
      * rewrite Hs, Hm. by rewrite seq_S.
      * rewrite !length_alter, length_app; simpl. lia.
      * rewrite Hr. case_decide as Hk0.
        -- subst k. rewrite Hm. by replace (length (meshes s0) + 0)%nat
             with (length (meshes s0)) by lia.
        -- done.
      * rewrite !take_alter, !decide_False by lia. by rewrite take_app_le by lia.
      * apply Forall_app. split.
        -- eapply Forall_impl; [|exact Hd]. simpl. intros a Ha.
           assert (a < length (meshes s))%nat.
           { destruct (meshes s !! a) eqn:E; [by apply lookup_lt_Some in E|done]. }
           rewrite !list_lookup_alter_ne by lia.
           by rewrite lookup_app_l by lia.
        -- constructor; [|constructor].
           rewrite !list_lookup_alter_eq.
           rewrite lookup_app_r by lia.
           by replace (length (meshes s) - length (meshes s))%nat with 0%nat by lia.
      * intros j Hj. destruct (decide (j = k)) as [->|Hne].
        -- rewrite <- Hm, !list_lookup_alter_eq.
           rewrite lookup_app_r by lia.
           by replace (length (meshes s) - length (meshes s))%nat with 0%nat by lia.
        -- rewrite !list_lookup_alter_ne by lia.
           rewrite lookup_app_l by lia. apply Hcb. lia.
    + exfalso. destruct (Hold H1) as (Hs & _).
      apply lookup_ge_None in Hh. rewrite Hlen in Hh. lia.
Qed.

(** ** Sizes of the sampled curves *)

Lemma pointsOf_valid V c p0 p1 p2 p3 :
  V !! v0 c = Some p0 -> V !! v1 c = Some p1 ->
  V !! v2 c = Some p2 -> V !! v3 c = Some p3 ->
  (1 ≤ nbPoints c)%Z ->
  pointsOf V c
  = map (fun i : nat =>
           bezierPoint p0 p1 p2 p3
             (Qc_of_Z (Z.of_nat i) / Qc_of_Z (nbPoints c))%Qc)
        (seq 0 (S (Z.to_nat (nbPoints c)))).
Proof.
  intros E0 E1 E2 E3 Hn. unfold pointsOf, curvePoints, sample.
  rewrite E0, E1, E2, E3.
  by destruct (Z.ltb_spec (nbPoints c) 1); [lia|].
Qed.

Lemma length_pointsOf V c :
  validCurve V c -> length (pointsOf V c) = S (Z.to_nat (nbPoints c)).
Proof.
  intros (H0 & H1 & H2 & H3 & Hn).
  apply lookup_lt_is_Some_2 in H0 as [p0 E0].
  apply lookup_lt_is_Some_2 in H1 as [p1 E1].
  apply lookup_lt_is_Some_2 in H2 as [p2 E2].
  apply lookup_lt_is_Some_2 in H3 as [p3 E3].
  rewrite (pointsOf_valid V c p0 p1 p2 p3) by done.
  by rewrite length_map, length_seq.
Qed.

Lemma polyline_cons V c cs : polyline V (c :: cs) = pointsOf V c ++ polyline V cs.
Proof. done. Qed.

Lemma curveStartAt_S cs k c :
  cs !! k = Some c -> curveStartAt cs (S k) = (curveStartAt cs k + nbPoints c)%Z.
Proof.
  intros Hc. unfold curveStartAt. erewrite take_S_r by done.
  rewrite map_app, foldr_app. simpl.
  generalize (map nbPoints (take k cs)). intros l.
  induction l as [|a l IH]; simpl; lia.
Qed.

Lemma curveStartAt_bounds V cs : forall k,
  Forall (validCurve V) cs -> (k < length cs)%nat ->
  (0 ≤ curveStartAt cs k < Z.of_nat (length (polyline V cs)))%Z.
Proof.
  induction cs as [|c cs IH]; intros k Hval Hk; simpl in Hk; [lia|].
  inversion Hval as [|? ? Hc Hcs]; subst.
  rewrite polyline_cons, length_app, length_pointsOf by done.
  destruct Hc as (_ & _ & _ & _ & Hn).
  destruct k as [|k].
  - unfold curveStartAt. simpl. lia.
  - unfold curveStartAt in *. simpl.
    specialize (IH k Hcs ltac:(lia)).
    lia.
Qed.

Lemma at_index_Some {A} (l : list A) (i : Z) :
  (0 ≤ i < Z.of_nat (length l))%Z -> is_Some (at_index l i).
Proof.
  intros Hi. unfold at_index. destruct (Z.ltb_spec i 0); [lia|].
  apply lookup_lt_is_Some_2. lia.
Qed.

Lemma polyline_nonempty V cs :
  Forall (validCurve V) cs -> (1 ≤ length cs)%nat ->
  (2 ≤ length (polyline V cs))%nat.
Proof.
  intros Hval Hn. destruct cs as [|c cs]; simpl in Hn; [lia|].
  inversion Hval as [|? ? Hc Hcs]; subst.
  rewrite polyline_cons, length_app, length_pointsOf by done.
  destruct Hc as (_ & _ & _ & _ & Hc). lia.
Qed.

(** ** Showing the helpers *)

Lemma placeHelpers_loop s0 points :
  Forall (validCurve (vectors s0)) (curves s0) ->
  Forall (fun h : ref => (h < length (meshes s0))%nat) (_helpers s0) ->
  points = polyline (vectors s0) (curves s0) ->
  exists curveStart s',
    forEach (fun (curveStart : Z) c index =>
               s ← _getHelper index;
               p ← defined (at_index points curveStart);
               moveTo s p;;
               mret (curveStart + nbPoints c)%Z)
            (curves s0) 0%nat 0%Z s0
    = (Returned curveStart, s')
    ∧ placing s0 (length (curves s0)) s'.
Proof.
  intros Hval Hh ->.
  edestruct (forEach_inv
    (fun (curveStart : Z) c index =>
               s ← _getHelper index;
               p ← defined (at_index (polyline (vectors s0) (curves s0)) curveStart);
               moveTo s p;;
               mret (curveStart + nbPoints c)%Z)
    (fun k acc s => placing s0 k s ∧ acc = curveStartAt (curves s0) k)
    (curves s0) 0%nat 0%Z s0) as (acc & s' & Hrun & Hp & _).
  - intros k c acc s Hc [Hp ->]. simpl.
    destruct (at_index_Some (polyline (vectors s0) (curves s0))
                (curveStartAt (curves s0) k)) as [p Hpt].
    { apply curveStartAt_bounds; [done|]. by apply lookup_lt_Some in Hc. }
    exists (curveStartAt (curves s0) k + nbPoints c)%Z, (placeHelper k p s).
    split.
    + erewrite bind_returned; [|apply _getHelper_eq].
      rewrite Hpt. reflexivity.
    + split; [|by rewrite (curveStartAt_S _ _ c)].
      apply placing_step; [done|]. apply lookup_lt_Some in Hc. lia.
  - split; [by apply placing_start|done].
  - by exists acc, s'.
Qed.

Lemma _showHelpers_spec s :
  validPath s -> exists s', _showHelpers s = (Returned tt, s') ∧ shown s s'.
Proof.
  intros (Hn & Hval & Hh). unfold _showHelpers.
  erewrite bind_returned; [|by apply getFinalCurvePoints_eq].
  set (s0 := set_curves (map (rebuilt (vectors s))) s).
  set (points := polyline (vectors s) (curves s)).
  assert (Hn0 : length (curves s0) = length (curves s)).
  { unfold s0; simpl. by rewrite length_map. }
  destruct (placeHelpers_loop s0 points) as (acc & s1 & Hloop & Hp1).
  { unfold s0; simpl. by apply Forall_validCurve_rebuilt. }
  { done. }
  { unfold s0, points; simpl. by rewrite polyline_rebuilt. }
  erewrite bind_returned; [|reflexivity].
  erewrite bind_returned; [|exact Hloop].
  erewrite bind_returned; [|apply _getHelper_eq].
  destruct (at_index_Some points (Z.of_nat (length points) - 1)) as [p Hpt].
  { pose proof (polyline_nonempty _ _ Hval Hn) as Hpl. fold points in Hpl. lia. }
  rewrite Hpt.
  pose proof (placing_step s0 _ p s1 Hp1 ltac:(lia)) as Hp2.
  set (s2 := placeHelper (length (curves s0)) p s1) in *.
  assert (Hrun : (moveTo (helperFor (length (curves s0)) s1) p ≫= λ _ : (),
             gets _helpers ≫= λ hs : list ref, removeLastHelpers (length hs - 1))
            (afterGetHelper (length (curves s0)) s1)
          = removeLastHelpers (length (_helpers s2) - 1) s2) by reflexivity.
  change (defined (Some p)) with (mret (M := M) p).
  erewrite bind_returned; [|reflexivity].
  rewrite Hrun. clear Hrun.
  destruct Hp2 as (HV & Hcs & Hvis & Hcol & Hgeo & Hlen & Hvalid & Hfresh & Hold).
  rewrite removeLastHelpers_eq by (rewrite Hlen; lia).
  eexists. split; [reflexivity|].
  unfold shown; cbn [set_meshes set_helpers vectors meshes curves _helpers
                     _helperRef isVisible color _geometry].
  rewrite Hcs, Hn0.
  split_and!; try done.
  - rewrite length_take, Hlen. lia.
  - rewrite length_disposeAll. by apply Forall_take.
  - intros H1 H2. destruct (Hfresh H1 H2) as (Hs & Hm & Hr & Ht & Hd & Hcb).
    rewrite Hs, Hn0.
    rewrite take_ge, drop_ge by (rewrite length_seq; lia).
    rewrite Hs, Hn0 in Hd. split_and!; [done|done|done|].
    intros j Hj. apply Hcb. lia.
  - intros H1. destruct Hold as (Hs & Hd); [by rewrite Hn0|].
    rewrite Hs, Hn0. change (_helpers s0) with (_helpers s).
    rewrite take_app_le, drop_app_le by lia.
    assert (Hml : length (meshes s2) = length (meshes s)).
    { apply (f_equal length) in Hd. by rewrite !length_map in Hd. }
    split_and!; [done|by rewrite length_disposeAll|].
    apply Forall_forall. intros h Hin. apply list_elem_of_In in Hin.
    rewrite lookup_disposeAll. rewrite decide_True; last first.
    { rewrite <- (take_drop (S (length (curves s))) (_helpers s)) in Hin.
      apply elem_of_app in Hin as [Hin|Hin]; apply elem_of_app; auto. }
    destruct (lookup_lt_is_Some_2 (meshes s2) h) as [m ->]; [|done].
    rewrite Hml. eapply Forall_forall in Hh; [exact Hh|]. by apply list_elem_of_In.
Qed.

Lemma show_spec s :
  validPath s ->
  exists s', show s = (Returned tt, s') ∧ shown (set_isVisible true s) s'.
Proof.
  intros Hval. unfold show.
  erewrite bind_returned; [|reflexivity].
  by apply _showHelpers_spec.
Qed.

(** ** Hiding the helpers *)

Lemma disposeEach hs : forall index s,
  forEach (fun (_ : unit) h (_ : nat) => dispose h) hs index tt s
  = (Returned tt, set_meshes (disposeAll (reverse hs)) s).
Proof.
  induction hs as [|h hs IH]; intros index s.
  - by destruct s.
  - cbn [forEach]. erewrite bind_returned; [|reflexivity].
    rewrite IH. unfold set_meshes; cbn [vectors meshes curves _helpers
      _helperRef isVisible color _geometry].
    by rewrite reverse_cons, disposeAll_app.
Qed.

Lemma hide_eq s : hide s = (Returned tt, hidden s).
Proof.
  unfold hide, _hideHelpers.
  erewrite bind_returned; [|reflexivity].
  erewrite bind_returned; [|reflexivity].
  erewrite bind_returned; [|apply disposeEach].
  reflexivity.
Qed.

Lemma validPath_hidden s : validPath s -> validPath (hidden s).
Proof. intros (Hn & Hval & Hh). split_and!; [done|done|constructor]. Qed.

#[global] Hint Resolve validPath_hidden : valid.

Lemma shown_valid s s' : validPath s -> shown s s' -> validPath s'.
Proof.
  intros (Hn & Hval & Hh) (HV & Hcs & _ & _ & _ & _ & Hh' & _).
  split_and!.
  - by rewrite Hcs, length_map.
  - rewrite HV, Hcs. by apply Forall_validCurve_rebuilt.
  - done.
Qed.

(** ** Redrawing *)

Lemma validPath_redrawn s : validPath s -> validPath (redrawn s).
Proof.
  intros (Hn & Hval & Hh). split_and!; simpl.
  - by rewrite length_map.
  - by apply Forall_validCurve_rebuilt.
  - done.
Qed.

#[global] Hint Resolve validPath_redrawn : valid.

Lemma updateCurveGeometry_spec s :
  validPath s ->
  exists s', updateCurveGeometry s = (Returned tt, s')
    ∧ (if isVisible s then shown (redrawn s) s' else s' = redrawn s).
Proof.
  intros Hval. unfold updateCurveGeometry, _updateCurveGeometry.
  destruct Hval as (Hn & Hcs & Hh).
  erewrite bind_returned; [|by apply getFinalCurvePoints_eq].
  erewrite bind_returned; [|reflexivity].
  erewrite bind_returned; [|reflexivity].
  erewrite bind_returned; [|reflexivity].
  cbn [andb isVisible set_geometry set_curves].
  destruct (isVisible s) eqn:Hvis.
  - apply (_showHelpers_spec (redrawn s)). by apply validPath_redrawn.
  - by eexists.
Qed.

(** ** Writing control points *)

Lemma copyFrom_eq t v s :
  validTarget (vectors s) t -> copyFrom t v s = (Returned tt, written t v s).
Proof.
  destruct t as [p|]; [|done]. simpl. intros Hp.
  apply lookup_lt_is_Some_2 in Hp as [w Hw].
  unfold copyFrom, readVector. msimpl. by rewrite Hw.
Qed.

Lemma validTarget_written t t' v s :
  validTarget (vectors s) t -> validTarget (vectors (written t' v s)) t.
Proof.
  destruct t as [p|], t' as [q|]; simpl; try done.
  by rewrite length_insert.
Qed.

Lemma length_vectors_written t v s :
  length (vectors (written t v s)) = length (vectors s).
Proof. destruct t; simpl; [by rewrite length_insert|done]. Qed.

Lemma validCurve_length V V' c :
  length V' = length V -> validCurve V c -> validCurve V' c.
Proof. unfold validCurve. intros ->. done. Qed.

Lemma validPath_written t v s : validPath s -> validPath (written t v s).
Proof.
  intros (Hn & Hval & Hh).
  assert (Hl := length_vectors_written t v s).
  destruct t as [p|]; [|done].
  split_and!; try done. simpl in *.
  eapply Forall_impl; [|exact Hval]. intros c. by apply validCurve_length.
Qed.

#[global] Hint Resolve validPath_written : valid.

Lemma targets_valid V cs index a b :
  Forall (validCurve V) cs -> targets cs index = Some (a, b) ->
  validTarget V a ∧ validTarget V b.
Proof.
  intros Hval. unfold targets.
  assert (Hc : forall i c, cs !! i = Some c -> validCurve V c).
  { intros i c Hc. eapply Forall_forall in Hval; [exact Hval|].
    apply list_elem_of_In, list_elem_of_lookup. eauto. }
  case_decide; destruct index as [|i]; try done.
  - destruct (cs !! i) as [c|] eqn:E; [|done]. simpl. intros [= <- <-].
    split; [done|]. simpl. by destruct (Hc _ _ E) as (_ & _ & _ & ? & _).
  - destruct (cs !! 0%nat) as [c|] eqn:E; [|done]. simpl. intros [= <- <-].
    split; [|done]. simpl. by destruct (Hc _ _ E) as (? & _).
  - destruct (cs !! S i) as [c|] eqn:E; [|done]. simpl.
    destruct (cs !! i) as [c'|] eqn:E'; [|done]. simpl. intros [= <- <-].
    split; simpl.
    + by destruct (Hc _ _ E) as (? & _).
    + by destruct (Hc _ _ E') as (_ & _ & _ & ? & _).
Qed.

(** The callback of slot [index]: a TypeError when the slot has no curve
    next to it, else both targets take the position of the helper and the
    geometry is redrawn; the helpers are left alone. *)
Lemma helperCallback_eq index helper s :
  validPath s ->
  helperCallback index helper s
  = match targets (curves s) index, meshes s !! helper with
    | Some (a, b), Some m =>
        (Returned tt, redrawn (written b (position m) (written a (position m) s)))
    | _, _ => (Thrown TypeError, s)
    end.
Proof.
  intros Hval. unfold helperCallback.
  erewrite bind_returned; [|reflexivity]. cbn beta.
  assert (Hpre :
    (if decide (index = length (curves s)) then
       c ← defined (if decide (index = 0)%nat then None
                    else curves s !! (index - 1)%nat);
       mret (None, Some (v3 c))
     else if decide (0 < index)%nat then
       c ← defined (curves s !! index);
       c' ← defined (curves s !! (index - 1)%nat);
       mret (Some (v0 c), Some (v3 c'))
     else
       c ← defined (curves s !! index);
       mret (Some (v0 c), None)) s
    = match targets (curves s) index with
      | Some t => (Returned t, s)
      | None => (Thrown TypeError, s)
      end).
  { unfold targets. case_decide as Hi.
    - destruct index as [|i]; [by rewrite decide_True|].
      rewrite decide_False by lia.
      replace (S i - 1)%nat with i by lia.
      by destruct (curves s !! i).
    - destruct index as [|i].
      + rewrite decide_False by lia. by destruct (curves s !! 0%nat).
      + rewrite decide_True by lia. replace (S i - 1)%nat with i by lia.
        destruct (curves s !! S i); [|done]. msimpl.
        by destruct (curves s !! i). }
  destruct (targets (curves s) index) as [[a b]|] eqn:Ht.
  - rewrite (bind_returned _ _ _ _ _ Hpre).
    erewrite bind_returned; [|reflexivity].
    destruct (meshes s !! helper) as [m|]; [|done].
    erewrite bind_returned; [|reflexivity].
    destruct (targets_valid (vectors s) _ _ _ _ (proj1 (proj2 Hval)) Ht) as [Ha Hb].
    erewrite bind_returned; [|by apply copyFrom_eq].
    erewrite bind_returned;
      [|by apply copyFrom_eq, validTarget_written].
    apply _updateCurveGeometry_false_eq.
    apply validPath_written, validPath_written, Hval.
  - by erewrite bind_thrown.
Qed.

(** ** The operations on valid paths *)

Lemma dragHelper_eq slot p s :
  dragHelper slot p s
  = match _helpers s !! slot with
    | None => (Returned tt, s)
    | Some h =>
        let s1 := set_meshes (alter (setPosition p) h) s in
        match meshes s1 !! h ≫= onMoved with
        | Some index => helperCallback index h s1
        | None => (Returned tt, s1)
        end
    end.
Proof.
  unfold dragHelper, moveTo. msimpl.
  destruct (_helpers s !! slot) as [h|]; [|done]. msimpl.
  cbn [meshes set_meshes].
  by destruct (option_bind _ _ _ _).
Qed.

Lemma removeSegment_eq id s :
  removeSegment id s
  = if decide (length (curves s) ≤ 1)%nat then (Returned tt, s)
    else updateCurveGeometry (set_curves (delete id) s).
Proof. unfold removeSegment, removeClicked. msimpl. by case_decide. Qed.

Lemma editPoint_eq index f p s :
  validPath s ->
  editPoint index f p s
  = match curves s !! index with
    | Some c => updateCurveGeometry (written (Some (pointOf f c)) p s)
    | None => (Thrown TypeError, s)
    end.
Proof.
  intros (Hn & Hval & Hh). unfold editPoint.
  erewrite bind_returned; [|reflexivity]. cbn beta.
  destruct (curves s !! index) as [c|] eqn:Hc; [|done].
  erewrite bind_returned; [|reflexivity]. cbn beta.
  erewrite bind_returned; [reflexivity|].
  apply copyFrom_eq. simpl.
  eapply Forall_forall in Hval;
    [|apply list_elem_of_In, list_elem_of_lookup; eauto].
  destruct Hval as (? & ? & ? & ? & _). by destruct f.
Qed.

Lemma validPath_moved p h s :
  validPath s -> validPath (set_meshes (alter (setPosition p) h) s).
Proof.
  intros (Hn & Hval & Hh). split_and!; [done|done|].
  simpl. by rewrite length_alter.
Qed.

#[global] Hint Resolve validPath_moved : valid.

(** [splice(i, 1)] past the end of the array removes nothing. *)
Lemma delete_beyond {A} (l : list A) : forall i : nat,
  (length l ≤ i)%nat -> delete i l = l.
Proof.
  induction l as [|a l IH]; intros [|i] Hi; simpl in *; try done; [lia|].
  f_equal. apply IH. lia.
Qed.

Lemma length_delete_le {A} (l : list A) (i : nat) :
  (length (delete i l) ≤ length l)%nat.
Proof.
  destruct (decide (i < length l)%nat).
  - rewrite length_delete by by apply lookup_lt_is_Some_2. lia.
  - rewrite delete_beyond by lia. lia.
Qed.

Lemma validPath_removed id s :
  validPath s -> (1 < length (curves s))%nat ->
  validPath (set_curves (delete id) s).
Proof.
  intros (Hn & Hval & Hh) Hlen. split_and!; simpl; [| |done].
  - destruct (decide (id < length (curves s))%nat).
    + rewrite length_delete by by apply lookup_lt_is_Some_2. lia.
    + rewrite delete_beyond by lia. lia.
  - by apply Forall_delete.
Qed.

Lemma pooled_redraw s s' :
  validPath s -> (isVisible s = false -> _helpers s = []) ->
  (if isVisible s then shown (redrawn s) s' else s' = redrawn s) ->
  pooled s'.
Proof.
  intros Hval Hpool Hs'. destruct (isVisible s) eqn:Hvis.
  - split; [by eapply shown_valid; [apply validPath_redrawn|]|].
    destruct Hs' as (_ & Hcs & Hv & _ & _ & Hlen & _).
    simpl in Hv. rewrite Hv, Hvis, Hlen, Hcs. simpl. by rewrite !length_map.
  - subst s'. split; [by apply validPath_redrawn|]. simpl. rewrite Hvis. auto.
Qed.

Lemma perform_pooled o s : pooled s -> pooled (snd (perform o s)).
Proof.
  intros [Hval Hpool]. destruct o as [| |slot p|id|index f p]; simpl.
  - destruct (show_spec s Hval) as (s' & -> & Hs). simpl.
    split; [by eapply shown_valid; [|exact Hs]|].
    destruct Hs as (_ & Hcs & Hv & _ & _ & Hlen & _).
    simpl in *. by rewrite Hv, Hlen, Hcs, length_map.
  - rewrite hide_eq. simpl. split; [by apply validPath_hidden|done].
  - rewrite dragHelper_eq.
    destruct (_helpers s !! slot) as [h|]; [|done]. cbn zeta.
    set (s1 := set_meshes (alter (setPosition p) h) s).
    assert (Hp1 : pooled s1) by (split; [unfold s1; auto with valid|done]).
    destruct (meshes s1 !! h ≫= onMoved) as [index|]; [|done].
    rewrite helperCallback_eq by apply Hp1.
    destruct (targets (curves s1) index) as [[a b]|]; [|done].
    destruct (meshes s1 !! h) as [m|]; [|done]. simpl.
    split; [apply validPath_redrawn, validPath_written, validPath_written, Hp1|].
    destruct a, b; simpl; by rewrite ?length_map.
  - rewrite removeSegment_eq. case_decide as Hlen; [done|].
    set (s1 := set_curves (delete id) s).
    assert (Hval1 : validPath s1) by (apply validPath_removed; [done|lia]).
    destruct (updateCurveGeometry_spec s1 Hval1) as (s' & -> & Hs'). simpl.
    apply (pooled_redraw s1); [done| |done].
    simpl. intros Hv. by rewrite Hv in Hpool.
  - rewrite editPoint_eq by done.
    destruct (curves s !! index) as [c|]; [|done].
    set (s1 := written (Some (pointOf f c)) p s).
    assert (Hval1 : validPath s1) by (unfold s1; auto with valid).
    destruct (updateCurveGeometry_spec s1 Hval1) as (s' & -> & Hs'). simpl.
    apply (pooled_redraw s1); [done| |done].
    simpl. intros Hv. by rewrite Hv in Hpool.
Qed.

Lemma run_pooled ops : forall s, pooled s -> pooled (run ops s).
Proof.
  induction ops as [|o ops IH]; intros s Hs; [done|].
  simpl. by apply IH, perform_pooled.
Qed.

Lemma pooled_new : pooled new_Path3DMesh.
Proof. by_evaluation. Qed.

(** * The claims *)

(** ** Removal of the last curve *)

(** C5: with exactly one curve [removeSegment] returns without an exception
    and leaves the whole state as it was, control points and curve sequence
    included; and no sequence of operations, on the default path or on any
    valid path, leaves a path without curve. *)
Theorem removeSegment_keeps_last_curve :
  (forall s id, length (curves s) = 1%nat ->
     removeSegment id s = (Returned tt, s)) ∧
  (forall s ops, pooled s -> (1 ≤ length (curves (run ops s)))%nat) ∧
  (forall ops, (1 ≤ length (curves (run ops new_Path3DMesh)))%nat).
Proof.
  split_and!.
  - intros s id Hlen. rewrite removeSegment_eq. by rewrite decide_True by lia.
  - intros s ops Hs. by destruct (run_pooled ops s Hs) as [(Hn & _) _].
  - intros ops. by destruct (run_pooled ops _ pooled_new) as [(Hn & _) _].
Qed.

Lemma removeSegment_keeps_last_curve_witness :
  let s := snd (removeSegment 1 new_Path3DMesh) in
  length (curves s) = 1%nat ∧ removeSegment 0 s = (Returned tt, s)
  ∧ (1 ≤ length (curves (run [OpShow; OpRemove 0; OpRemove 0] s)))%nat.
Proof.
  intros s.
  assert (Hlen : length (curves s) = 1%nat) by (vm_compute; reflexivity).
  assert (Hs : pooled s) by by_evaluation.
  split_and!.
  - exact Hlen.
  - exact (proj1 removeSegment_keeps_last_curve s 0%nat Hlen).
  - exact (proj1 (proj2 removeSegment_keeps_last_curve) s
             [OpShow; OpRemove 0; OpRemove 0] Hs).
Defined.

(** ** Size of the pool *)

(** C6, as stated, fails on the path just constructed: it is hidden, no drag
    is in progress, it has two curves and its pool is empty. *)
Lemma pool_size_hidden_counterexample :
  isVisible new_Path3DMesh = false ∧
  length (curves new_Path3DMesh) = 2%nat ∧
  length (_helpers new_Path3DMesh) ≠ S (length (curves new_Path3DMesh)).
Proof. vm_compute. split_and!; [done|done|lia]. Qed.

(** C6, amended: whatever the operations performed, on the default path or
    on any valid path, the pool of a visible path has [curves.length + 1]
    helpers and the pool of a hidden path is empty; [show()] returns with a pool of [curves.length + 1] helpers; and
    [removeSegment] on a visible path of several curves returns with the
    curve removed and a pool of as many helpers as the new number of curves
    plus one, every helper that was pooled at a slot beyond the new number
    of curves being disposed. *)
Theorem pool_size_visible :
  (forall s ops, pooled s ->
     if isVisible (run ops s)
     then length (_helpers (run ops s)) = S (length (curves (run ops s)))
     else _helpers (run ops s) = []) ∧
  (forall ops,
     if isVisible (run ops new_Path3DMesh)
     then length (_helpers (run ops new_Path3DMesh))
          = S (length (curves (run ops new_Path3DMesh)))
     else _helpers (run ops new_Path3DMesh) = []) ∧
  (forall s, validPath s ->
     exists s', show s = (Returned tt, s')
       ∧ length (_helpers s') = S (length (curves s'))) ∧
  (forall s id, pooled s -> isVisible s = true ->
     (1 < length (curves s))%nat ->
     exists s', removeSegment id s = (Returned tt, s')
       ∧ map (setCurve None) (curves s')
         = map (setCurve None) (delete id (curves s))
       ∧ length (_helpers s') = S (length (curves s'))
       ∧ forall slot h, (length (curves s') < slot)%nat ->
           _helpers s !! slot = Some h ->
           disposed <$> meshes s' !! h = Some true).
Proof.
  split_and!.
  - intros s ops Hs. by destruct (run_pooled ops s Hs) as [_ Hp].
  - intros ops. by destruct (run_pooled ops _ pooled_new) as [_ Hp].
  - intros s Hval. destruct (show_spec s Hval) as (s' & Hshow & Hs).
    exists s'. split; [done|].
    destruct Hs as (_ & Hcs & _ & _ & _ & Hlen & _).
    simpl in *. by rewrite Hlen, Hcs, length_map.
  - intros s id [Hval Hpool] Hvis Hlen. rewrite Hvis in Hpool.
    rewrite removeSegment_eq, decide_False by lia.
    set (s1 := set_curves (delete id) s).
    assert (Hval1 : validPath s1) by by apply validPath_removed.
    destruct (updateCurveGeometry_spec s1 Hval1) as (s' & Hrun & Hs').
    change (isVisible s1) with (isVisible s) in Hs'. rewrite Hvis in Hs'.
    exists s'. split; [done|].
    destruct Hs' as (_ & Hcs & _ & _ & _ & Hl & _ & _ & Hold).
    assert (Hn1 : length (curves (redrawn s1)) = length (delete id (curves s))).
    { simpl. by rewrite length_map. }
    assert (Hn' : length (curves s') = length (delete id (curves s))).
    { by rewrite Hcs, length_map. }
    pose proof (length_delete_le (curves s) id) as Hle.
    split_and!; [|by rewrite Hl, Hn', Hn1|].
    { rewrite Hcs. simpl. rewrite !map_map. by apply map_ext. }
    intros slot h Hslot Hh.
    destruct Hold as (_ & _ & Hd).
    { rewrite Hn1. simpl. lia. }
    eapply Forall_forall in Hd; [exact Hd|].
    apply list_elem_of_In, list_elem_of_lookup. eauto.
Qed.

Lemma pool_size_visible_witness :
  let s := snd (show new_Path3DMesh) in
  (if isVisible (run [OpRemove 0; OpHide] s)
   then length (_helpers (run [OpRemove 0; OpHide] s))
        = S (length (curves (run [OpRemove 0; OpHide] s)))
   else _helpers (run [OpRemove 0; OpHide] s) = []) ∧
  (exists s', show new_Path3DMesh = (Returned tt, s')
     ∧ length (_helpers s') = S (length (curves s'))) ∧
  (exists s', removeSegment 0 s = (Returned tt, s')
     ∧ map (setCurve None) (curves s')
       = map (setCurve None) (delete 0%nat (curves s))
     ∧ length (_helpers s') = S (length (curves s'))
     ∧ forall slot h, (length (curves s') < slot)%nat ->
         _helpers s !! slot = Some h ->
         disposed <$> meshes s' !! h = Some true).
Proof.
  intros s.
  assert (Hnew : validPath new_Path3DMesh) by by_evaluation.
  assert (Hs : pooled s) by by_evaluation.
  split_and!.
  - exact (proj1 pool_size_visible s [OpRemove 0; OpHide] Hs).
  - exact (proj1 (proj2 (proj2 pool_size_visible)) _ Hnew).
  - apply (proj2 (proj2 (proj2 pool_size_visible)) s 0%nat Hs).
    + vm_compute; reflexivity.
    + by_evaluation.
Defined.

(** ** Hiding and showing again *)

(** C9: on every valid path [hide()] returns with an empty pool, having
    disposed every pooled helper, and the [show()] that follows returns
    with the same control points (the same objects with the same
    coordinates, in the same curves), the same vertex data in the geometry
    and the same combined polyline; its helpers are objects that were not in
    the pool before and are not disposed, while the helpers of the old pool
    stay disposed. *)
Theorem hide_then_show s :
  validPath s ->
  exists s2,
    hide s = (Returned tt, hidden s) ∧ _helpers (hidden s) = [] ∧
    show (hidden s) = (Returned tt, s2) ∧
    vectors s2 = vectors s ∧
    map (setCurve None) (curves s2) = map (setCurve None) (curves s) ∧
    _geometry s2 = _geometry s ∧
    fst (getFinalCurvePoints s2) = fst (getFinalCurvePoints s) ∧
    length (_helpers s2) = S (length (curves s2)) ∧
    (forall h, h ∈ _helpers s2 ->
       (h ∉ _helpers s) ∧ disposed <$> meshes s2 !! h = Some false) ∧
    (forall h, h ∈ _helpers s ->
       disposed <$> meshes (hidden s) !! h = Some true ∧
       disposed <$> meshes s2 !! h = Some true).
Proof.
  intros Hval.
  destruct (show_spec (hidden s) (validPath_hidden s Hval)) as (s2 & Hshow & Hs).
  exists s2.
  destruct Hs as (HV & Hcs & _ & _ & Hgeo & Hlen & _ & Hfresh & _).
  destruct Hfresh as (Hpool & Htake & Hnew & _); [done|done|].
  cbn [set_isVisible hidden vectors meshes curves _helpers _helperRef isVisible
       color _geometry] in *.
  rewrite length_disposeAll in Hpool, Htake.
  destruct Hval as (Hn & Hvalid & Hh).
  assert (Hold : forall h, h ∈ _helpers s ->
            disposed <$> disposeAll (reverse (_helpers s)) (meshes s) !! h
            = Some true).
  { intros h Hin. rewrite lookup_disposeAll.
    rewrite decide_True by by apply elem_of_reverse.
    eapply Forall_forall in Hh; [|by apply list_elem_of_In].
    by destruct (lookup_lt_is_Some_2 (meshes s) h Hh) as [m ->]. }
  split_and!; [apply hide_eq|done|done|done| |done| | | |].
  - rewrite Hcs, map_map. by apply map_ext.
  - rewrite !getFinalCurvePoints_eq.
    + simpl. by rewrite HV, Hcs, polyline_rebuilt.
    + done.
    + rewrite HV, Hcs. by apply Forall_validCurve_rebuilt.
  - by rewrite Hlen, Hcs, length_map.
  - intros h Hin. split.
    + intros Hin'. rewrite Hpool in Hin. apply elem_of_seq in Hin.
      eapply Forall_forall in Hh; [|by apply list_elem_of_In]. lia.
    + eapply Forall_forall in Hnew; [exact Hnew|]. by apply list_elem_of_In.
  - intros h Hin. split; [by apply Hold|].
    rewrite <- (Hold h Hin), <- Htake. symmetry. f_equal.
    apply lookup_take_lt.
    eapply Forall_forall in Hh; [exact Hh|]. by apply list_elem_of_In.
Qed.

Lemma hide_then_show_witness :
  let s := snd (show new_Path3DMesh) in
  exists s2,
    hide s = (Returned tt, hidden s) ∧ _helpers (hidden s) = [] ∧
    show (hidden s) = (Returned tt, s2) ∧
    vectors s2 = vectors s ∧
    map (setCurve None) (curves s2) = map (setCurve None) (curves s) ∧
    _geometry s2 = _geometry s ∧
    fst (getFinalCurvePoints s2) = fst (getFinalCurvePoints s) ∧
    length (_helpers s2) = S (length (curves s2)) ∧
    (forall h, h ∈ _helpers s2 ->
       (h ∉ _helpers s) ∧ disposed <$> meshes s2 !! h = Some false) ∧
    (forall h, h ∈ _helpers s ->
       disposed <$> meshes (hidden s) !! h = Some true ∧
       disposed <$> meshes s2 !! h = Some true).
Proof.
  intros s. apply (hide_then_show s). by_evaluation.
Defined.

(** ** Dragging a helper *)

Lemma targets_Some cs slot :
  (1 ≤ length cs)%nat -> (slot ≤ length cs)%nat -> is_Some (targets cs slot).
Proof.
  intros Hn Hslot. unfold targets. case_decide as Hs.
  - destruct slot as [|i]; [lia|].
    destruct (lookup_lt_is_Some_2 cs i) as [c ->]; [lia|]. by eexists.
  - destruct (lookup_lt_is_Some_2 cs slot) as [c Hc]; [lia|].
    destruct slot as [|i].
    + rewrite Hc. by eexists.
    + rewrite Hc. destruct (lookup_lt_is_Some_2 cs i) as [c' ->]; [lia|].
      by eexists.
Qed.

(** A drag of the helper pooled at [slot], whose callback is the one of
    that slot. *)
Lemma dragHelper_registered s slot p h :
  validPath s ->
  _helpers s !! slot = Some h ->
  meshes s !! h ≫= onMoved = Some slot ->
  (slot ≤ length (curves s))%nat ->
  exists a b,
    targets (curves s) slot = Some (a, b) ∧
    dragHelper slot p s
    = (Returned tt,
       redrawn (written b p (written a p
                  (set_meshes (alter (setPosition p) h) s)))).
Proof.
  intros Hval Hh Hreg Hslot.
  destruct (targets_Some (curves s) slot) as [[a b] Ht]; [apply Hval|done|].
  exists a, b. split; [done|].
  rewrite dragHelper_eq, Hh. cbn zeta.
  destruct (meshes s !! h) as [m|] eqn:Hm; [|done]. simpl in Hreg.
  cbn [meshes set_meshes]. rewrite list_lookup_alter_eq, Hm. simpl.
  rewrite Hreg, helperCallback_eq by auto with valid.
  cbn [curves meshes set_meshes]. rewrite Ht, list_lookup_alter_eq, Hm. done.
Qed.

Lemma vectors_written_twice a b p s :
  vectors (redrawn (written b p (written a p s)))
  = vectors (written b p (written a p s)).
Proof. done. Qed.

(** After [show()] on a hidden path the helper pooled at a slot carries the
    callback of that slot. *)
Lemma show_attaches_callbacks s :
  validPath s -> _helpers s = [] -> _helperRef s = None ->
  exists s',
    show s = (Returned tt, s') ∧
    forall slot, (slot ≤ length (curves s))%nat ->
      exists h, _helpers s' !! slot = Some h
                ∧ meshes s' !! h ≫= onMoved = Some slot.
Proof.
  intros Hval Hh Hr. destruct (show_spec s Hval) as (s' & Hshow & Hs).
  exists s'. split; [done|]. intros slot Hslot.
  destruct Hs as (_ & _ & _ & _ & _ & _ & _ & Hfresh & _).
  destruct Hfresh as (Hpool & _ & _ & Hcb); [done|done|].
  cbn [set_isVisible vectors meshes curves _helpers] in *.
  exists (length (meshes s) + slot)%nat. split.
  - rewrite Hpool. apply lookup_seq_lt. lia.
  - by apply Hcb.
Qed.

(** C7: the callback of the helper of a slot writes the dragged position
    into the start point of the curve that begins at the slot and into the
    end point of the curve that ends there, and into no other object.  At
    a joint both exist; at slot 0 no curve ends, so only the start of the
    first curve is set; at the slot [curves.length] no curve begins, so only
    the end of the last curve is set. *)
Theorem drag_routes_position s slot p h :
  validPath s ->
  _helpers s !! slot = Some h ->
  meshes s !! h ≫= onMoved = Some slot ->
  (slot ≤ length (curves s))%nat ->
  exists s',
    dragHelper slot p s = (Returned tt, s') ∧
    map (setCurve None) (curves s') = map (setCurve None) (curves s) ∧
    (forall c, curves s !! slot = Some c -> vectors s' !! v0 c = Some p) ∧
    (forall i c, slot = S i -> curves s !! i = Some c ->
       vectors s' !! v3 c = Some p) ∧
    (forall q : ref,
       (forall c, curves s !! slot = Some c -> q ≠ v0 c) ->
       (forall i c, slot = S i -> curves s !! i = Some c -> q ≠ v3 c) ->
       vectors s' !! q = vectors s !! q).
Proof.
  intros Hval Hh Hreg Hslot.
  destruct (dragHelper_registered s slot p h Hval Hh Hreg Hslot)
    as (a & b & Ht & Hrun).
  eexists. split; [exact Hrun|].
  destruct Hval as (Hn & Hvalid & _).
  destruct (targets_valid _ _ _ _ _ Hvalid Ht) as [Ha Hb].
  set (s1 := set_meshes (alter (setPosition p) h) s) in *.
  split.
  { destruct a, b; simpl; rewrite map_map; by apply map_ext. }
  rewrite vectors_written_twice.
  unfold targets in Ht. case_decide as Hs.
  - destruct slot as [|i]; [done|].
    destruct (curves s !! i) as [c|] eqn:Hc; [|done]. simpl in Ht.
    injection Ht as <- <-. simpl in *.
    split_and!.
    + intros c0 Hc0. apply lookup_lt_Some in Hc0. lia.
    + intros i' c' [= <-] Hc'. rewrite Hc in Hc'. injection Hc' as <-.
      by apply list_lookup_insert_eq.
    + intros q _ Hq. apply list_lookup_insert_ne.
      intros <-. by apply (Hq i c).
  - destruct slot as [|i].
    + destruct (curves s !! 0%nat) as [c|] eqn:Hc; [|done]. simpl in Ht.
      injection Ht as <- <-. simpl in *.
      split_and!.
      * intros c0 [= <-]. by apply list_lookup_insert_eq.
      * intros i c0 [=].
      * intros q Hq _. apply list_lookup_insert_ne.
        intros <-. by apply (Hq c).
    + destruct (curves s !! S i) as [c|] eqn:Hc; [|done]. simpl in Ht.
      destruct (curves s !! i) as [c'|] eqn:Hc'; [|done]. simpl in Ht.
      injection Ht as <- <-. simpl in *.
      split_and!.
      * intros c0 [= <-].
        destruct (decide (v3 c' = v0 c)) as [->|Hne].
        -- apply list_lookup_insert_eq. by rewrite length_insert.
        -- rewrite list_lookup_insert_ne by done.
           by apply list_lookup_insert_eq.
      * intros i' c0 [= <-] Hc0. rewrite Hc' in Hc0. injection Hc0 as <-.
        apply list_lookup_insert_eq. by rewrite length_insert.
      * intros q Hq0 Hq3.
        rewrite !list_lookup_insert_ne; [done| |].
        -- intros <-. by apply (Hq0 c).
        -- intros <-. by apply (Hq3 i c').
Qed.

Lemma drag_routes_position_witness :
  let s := snd (show new_Path3DMesh) in
  let p := vec3 5 1 5 1 5 1 in
  exists s',
    dragHelper 1 p s = (Returned tt, s') ∧
    map (setCurve None) (curves s') = map (setCurve None) (curves s) ∧
    (forall c, curves s !! 1%nat = Some c -> vectors s' !! v0 c = Some p) ∧
    (forall i c, 1%nat = S i -> curves s !! i = Some c ->
       vectors s' !! v3 c = Some p) ∧
    (forall q : ref,
       (forall c, curves s !! 1%nat = Some c -> q ≠ v0 c) ->
       (forall i c, 1%nat = S i -> curves s !! i = Some c -> q ≠ v3 c) ->
       vectors s' !! q = vectors s !! q).
Proof.
  intros s p. apply (drag_routes_position s 1%nat p 1%nat).
  - by_evaluation.
  - vm_compute; reflexivity.
  - vm_compute; reflexivity.
  - by_evaluation.
Defined.

(** C8, as stated, fails: on a path of three curves [show()] places the
    helpers at their derived positions; after the helper of slot 1 has been
    dragged the derived positions, the ones [_showHelpers] would give, have
    changed (that of slot 2 depends on the start point of the second curve)
    and the helpers have not been moved to them. *)
Lemma drag_does_not_reposition_counterexample :
  let s := snd (show threeCurves) in
  let s' := snd (dragHelper 1 (vec3 5 1 5 1 5 1) s) in
  helperPositions s = derivedPositions s ∧
  fst (dragHelper 1 (vec3 5 1 5 1 5 1) s) = Returned tt ∧
  length (curves s') = length (curves s) ∧
  helperPositions (snd (_showHelpers s')) = derivedPositions s' ∧
  helperPositions s' ≠ derivedPositions s'.
Proof.
  intros s s'. split_and!.
  - by_evaluation.
  - vm_compute; reflexivity.
  - vm_compute; reflexivity.
  - by_evaluation.
  - by_evaluation.
Qed.

(** C8, amended: the callback of a dragged helper rebuilds every curve from
    the control points as they are after the drag and pushes the vertex data
    of the new combined polyline to the geometry; it does not touch the
    helpers: the pool is the same, no helper is created or disposed, and
    the only helper whose position differs is the dragged one, which the
    engine moved. *)
Theorem drag_redraws_and_leaves_helpers s slot p h :
  validPath s ->
  _helpers s !! slot = Some h ->
  meshes s !! h ≫= onMoved = Some slot ->
  (slot ≤ length (curves s))%nat ->
  exists s',
    dragHelper slot p s = (Returned tt, s') ∧
    curves s' = map (rebuilt (vectors s')) (curves s) ∧
    _geometry s'
    = Some (lineSystem (color s') (polyline (vectors s') (curves s'))) ∧
    fst (getFinalCurvePoints s')
    = Returned (polyline (vectors s') (curves s')) ∧
    _helpers s' = _helpers s ∧ _helperRef s' = _helperRef s ∧
    meshes s' = alter (setPosition p) h (meshes s) ∧
    isVisible s' = isVisible s.
Proof.
  intros Hval Hh Hreg Hslot.
  destruct (dragHelper_registered s slot p h Hval Hh Hreg Hslot)
    as (a & b & Ht & Hrun).
  eexists. split; [exact Hrun|].
  set (s1 := set_meshes (alter (setPosition p) h) s) in *.
  set (s2 := written b p (written a p s1)) in *.
  assert (Hval2 : validPath s2).
  { unfold s2, s1. auto with valid. }
  assert (Hcs : curves s2 = curves s) by by destruct a, b.
  assert (Hms : meshes s2 = alter (setPosition p) h (meshes s))
    by by destruct a, b.
  assert (Hhs : _helpers s2 = _helpers s ∧ _helperRef s2 = _helperRef s
                ∧ isVisible s2 = isVisible s) by by destruct a, b.
  destruct Hhs as (Hhs & Hhr & Hvis).
  destruct (validPath_redrawn s2 Hval2) as (_ & Hvalid & _).
  split_and!; simpl; try done.
  - by rewrite Hcs.
  - by rewrite polyline_rebuilt.
  - rewrite getFinalCurvePoints_eq by done. simpl.
    by rewrite !polyline_rebuilt.
Qed.

Lemma drag_redraws_and_leaves_helpers_witness :
  let s := snd (show new_Path3DMesh) in
  let p := vec3 5 1 5 1 5 1 in
  exists s',
    dragHelper 1 p s = (Returned tt, s') ∧
    curves s' = map (rebuilt (vectors s')) (curves s) ∧
    _geometry s'
    = Some (lineSystem (color s') (polyline (vectors s') (curves s'))) ∧
    fst (getFinalCurvePoints s')
    = Returned (polyline (vectors s') (curves s')) ∧
    _helpers s' = _helpers s ∧ _helperRef s' = _helperRef s ∧
    meshes s' = alter (setPosition p) 1%nat (meshes s) ∧
    isVisible s' = isVisible s.
Proof.
  intros s p. apply (drag_redraws_and_leaves_helpers s 1%nat p 1%nat).
  - by_evaluation.
  - vm_compute; reflexivity.
  - vm_compute; reflexivity.
  - by_evaluation.
Defined.

(** ** Sampling one curve *)

Lemma lookup_map {A B} (f : A -> B) (l : list A) : forall i : nat,
  map f l !! i = f <$> l !! i.
Proof. induction l as [|a l IH]; intros [|i]; simpl; auto. Qed.

Lemma equation_0 a b c d : equation 0 a b c d = a.
Proof. unfold equation. ring. Qed.

Lemma equation_1 a b c d : equation 1 a b c d = d.
Proof. unfold equation. ring. Qed.

Lemma bezierPoint_0 start ctrl1 ctrl2 end_ :
  bezierPoint start ctrl1 ctrl2 end_ 0 = start.
Proof. unfold bezierPoint. rewrite !equation_0. by destruct start. Qed.

Lemma bezierPoint_1 start ctrl1 ctrl2 end_ :
  bezierPoint start ctrl1 ctrl2 end_ 1 = end_.
Proof. unfold bezierPoint. rewrite !equation_1. by destruct end_. Qed.

Lemma parameter_first count : (Qc_of_Z 0 / Qc_of_Z count = 0)%Qc.
Proof. rewrite Z2Qc_inj_0. unfold Qcdiv. ring. Qed.

Lemma parameter_last count :
  (1 ≤ count)%Z -> (Qc_of_Z count / Qc_of_Z count = 1)%Qc.
Proof.
  intros Hc. apply Qcmult_inv_r. rewrite <- Z2Qc_inj_0.
  intros H. apply Z2Qc_inj in H. lia.
Qed.

(** C3: for a sample count of at least 1 the sampling returns, with
    [count + 1] points; the point of index [i] is the point of the curve at
    the parameter [i / count], so the first is the start point and the last
    is the end point.  The result is a function of the five inputs, and
    [updateCurve] stores it in the cache of the curve and changes nothing
    else: the control points it read are as they were. *)
Theorem sample_count_and_endpoints start ctrl1 ctrl2 end_ count :
  (1 ≤ count)%Z ->
  exists pts,
    sample start ctrl1 ctrl2 end_ count = Returned pts ∧
    length pts = S (Z.to_nat count) ∧
    pts !! 0%nat = Some start ∧
    pts !! Z.to_nat count = Some end_ ∧
    (forall i : nat, (i ≤ Z.to_nat count)%nat ->
       pts !! i = Some (bezierPoint start ctrl1 ctrl2 end_
                          (Qc_of_Z (Z.of_nat i) / Qc_of_Z count)%Qc)) ∧
    (forall s index c,
       curves s !! index = Some c -> nbPoints c = count ->
       vectors s !! v0 c = Some start -> vectors s !! v1 c = Some ctrl1 ->
       vectors s !! v2 c = Some ctrl2 -> vectors s !! v3 c = Some end_ ->
       updateCurve index s
       = (Returned tt, set_curves (alter (setCurve (Some pts)) index) s)).
Proof.
  intros Hc.
  set (pts := map (fun i : nat =>
                     bezierPoint start ctrl1 ctrl2 end_
                       (Qc_of_Z (Z.of_nat i) / Qc_of_Z count)%Qc)
                  (seq 0 (S (Z.to_nat count)))).
  assert (Hs : sample start ctrl1 ctrl2 end_ count = Returned pts).
  { unfold sample. by destruct (Z.ltb_spec count 1); [lia|]. }
  assert (Hi : forall i : nat, (i ≤ Z.to_nat count)%nat ->
            pts !! i = Some (bezierPoint start ctrl1 ctrl2 end_
                          (Qc_of_Z (Z.of_nat i) / Qc_of_Z count)%Qc)).
  { intros i Hi. unfold pts. rewrite lookup_map, lookup_seq_lt by lia. done. }
  exists pts. split_and!; [done| | | |done|].
  - unfold pts. by rewrite length_map, length_seq.
  - rewrite Hi by lia. simpl. by rewrite parameter_first, bezierPoint_0.
  - rewrite Hi by lia. rewrite Z2Nat.id by lia.
    by rewrite parameter_last, bezierPoint_1.
  - intros s index c Hcv Hn E0 E1 E2 E3. unfold updateCurve.
    erewrite bind_returned; [|reflexivity]. cbn beta. rewrite Hcv.
    erewrite bind_returned; [|reflexivity]. cbn beta.
    erewrite bind_returned; [reflexivity|].
    rewrite CreateCubicBezier_eq. unfold curvePoints.
    by rewrite E0, E1, E2, E3, Hn, Hs.
Qed.

Lemma sample_count_and_endpoints_witness :
  let start := vec3 0 1 0 1 0 1 in
  let ctrl1 := vec3 5 2 5 2 (-1) 2 in
  let ctrl2 := vec3 3 2 2 1 (-1) 1 in
  let end_ := vec3 1 1 1 1 1 1 in
  exists pts,
    sample start ctrl1 ctrl2 end_ 10 = Returned pts ∧
    length pts = S (Z.to_nat 10) ∧
    pts !! 0%nat = Some start ∧
    pts !! Z.to_nat 10 = Some end_ ∧
    (forall i : nat, (i ≤ Z.to_nat 10)%nat ->
       pts !! i = Some (bezierPoint start ctrl1 ctrl2 end_
                          (Qc_of_Z (Z.of_nat i) / Qc_of_Z 10)%Qc)) ∧
    (forall s index c,
       curves s !! index = Some c -> nbPoints c = 10%Z ->
       vectors s !! v0 c = Some start -> vectors s !! v1 c = Some ctrl1 ->
       vectors s !! v2 c = Some ctrl2 -> vectors s !! v3 c = Some end_ ->
       updateCurve index s
       = (Returned tt, set_curves (alter (setCurve (Some pts)) index) s)).
Proof.
  intros start ctrl1 ctrl2 end_.
  apply (sample_count_and_endpoints start ctrl1 ctrl2 end_ 10). lia.
Defined.

(** ** Invalid sample counts *)

Lemma curvePoints_in_store V c :
  pointsInStore V c ->
  curvePoints V c
  = if (nbPoints c <? 1)%Z then Thrown InvalidSampleCount
    else Returned (pointsOf V c).
Proof.
  intros (H0 & H1 & H2 & H3).
  destruct (Z.ltb_spec (nbPoints c) 1) as [Hlt|Hge].
  - apply lookup_lt_is_Some_2 in H0 as [p0 E0].
    apply lookup_lt_is_Some_2 in H1 as [p1 E1].
    apply lookup_lt_is_Some_2 in H2 as [p2 E2].
    apply lookup_lt_is_Some_2 in H3 as [p3 E3].
    unfold curvePoints, sample. rewrite E0, E1, E2, E3.
    by destruct (Z.ltb_spec (nbPoints c) 1); [|lia].
  - by apply curvePoints_valid.
Qed.

Lemma buildCurves_throws l : forall pre s k c,
  curves s = pre ++ l ->
  Forall (pointsInStore (vectors s)) l ->
  l !! k = Some c -> (nbPoints c < 1)%Z ->
  exists s',
    forEach (fun (_ : unit) c index =>
               pts ← CreateCubicBezier c;
               modify (set_curves (alter (setCurve (Some pts)) index)))
            l (length pre) tt s
    = (Thrown InvalidSampleCount, s')
    ∧ curves s' !! (length pre + k)%nat = Some c
    ∧ vectors s' = vectors s.
Proof.
  induction l as [|a l IH]; intros pre s k c Hcs Hin Hk Hn; [done|].
  inversion Hin as [|? ? Ha Hl]; subst.
  assert (Hhere : curves s !! (length pre + k)%nat = Some c).
  { rewrite Hcs, lookup_app_r by lia.
    by replace (length pre + k - length pre)%nat with k by lia. }
  cbn [forEach].
  destruct (Z.ltb_spec (nbPoints a) 1) as [Hlt|Hge].
  - exists s. split_and!; [|done|done].
    erewrite bind_thrown; [done|].
    erewrite bind_thrown; [done|].
    rewrite CreateCubicBezier_eq, curvePoints_in_store by done.
    by destruct (Z.ltb_spec (nbPoints a) 1); [|lia].
  - destruct k as [|k]; [simpl in Hk; injection Hk as ->; lia|].
    simpl in Hk.
    set (s1 := set_curves (alter (setCurve (Some (pointsOf (vectors s) a)))
                             (length pre)) s).
    assert (Hcs1 : curves s1 = (pre ++ [rebuilt (vectors s) a]) ++ l).
    { unfold s1; simpl. rewrite Hcs.
      replace (length pre) with (length pre + 0)%nat at 1 by lia.
      rewrite alter_app_r. simpl. by rewrite <- app_assoc. }
    destruct (IH (pre ++ [rebuilt (vectors s) a]) s1 k c Hcs1 Hl Hk Hn)
      as (s' & Hrun & Hc' & HV).
    rewrite length_app in Hrun, Hc'. simpl in Hrun, Hc'.
    replace (length pre + 1)%nat with (S (length pre)) in Hrun by lia.
    replace (length pre + 1 + k)%nat with (length pre + S k)%nat in Hc' by lia.
    exists s'. split_and!; [|done|done].
    erewrite bind_returned; [exact Hrun|].
    erewrite bind_returned; [reflexivity|].
    rewrite CreateCubicBezier_eq, curvePoints_in_store by done.
    by destruct (Z.ltb_spec (nbPoints a) 1); [lia|].
Qed.

(** C4: a sample count below 1 is rejected with the error
    InvalidSampleCount, whatever the control points.  [updateCurve] of such
    a curve throws it and leaves the whole state, the cache of the curve
    included, as it was; [buildCurves] throws it too, at the first curve of
    the path with an invalid count, and the curve keeps the cache it
    had. *)
Theorem invalid_count_rejected s index c :
  curves s !! index = Some c ->
  (nbPoints c < 1)%Z ->
  Forall (pointsInStore (vectors s)) (curves s) ->
  (forall start ctrl1 ctrl2 end_,
     sample start ctrl1 ctrl2 end_ (nbPoints c) = Thrown InvalidSampleCount) ∧
  updateCurve index s = (Thrown InvalidSampleCount, s) ∧
  exists s',
    buildCurves s = (Thrown InvalidSampleCount, s') ∧
    curves s' !! index = Some c ∧
    vectors s' = vectors s.
Proof.
  intros Hc Hn Hin. split_and!.
  - intros. unfold sample. by destruct (Z.ltb_spec (nbPoints c) 1); [|lia].
  - unfold updateCurve.
    erewrite bind_returned; [|reflexivity]. cbn beta. rewrite Hc.
    erewrite bind_returned; [|reflexivity]. cbn beta.
    erewrite bind_thrown; [done|].
    rewrite CreateCubicBezier_eq, curvePoints_in_store.
    + by destruct (Z.ltb_spec (nbPoints c) 1); [|lia].
    + eapply Forall_forall in Hin; [exact Hin|].
      apply list_elem_of_In, list_elem_of_lookup. eauto.
  - unfold buildCurves. msimpl.
    exact (buildCurves_throws (curves s) [] s index c eq_refl Hin Hc Hn).
Qed.

Lemma invalid_count_rejected_witness :
  let c := mkCurve None 0 4 5 6 7 in
  (forall start ctrl1 ctrl2 end_,
     sample start ctrl1 ctrl2 end_ (nbPoints c) = Thrown InvalidSampleCount) ∧
  updateCurve 1 zeroCount = (Thrown InvalidSampleCount, zeroCount) ∧
  exists s',
    buildCurves zeroCount = (Thrown InvalidSampleCount, s') ∧
    curves s' !! 1%nat = Some c ∧
    vectors s' = vectors zeroCount.
Proof.
  intros c. apply (invalid_count_rejected zeroCount 1%nat c).
  - reflexivity.
  - simpl. lia.
  - by_evaluation.
Defined.

(** ** The combined polyline *)

Lemma pointsOf_lookup V c p0 p1 p2 p3 (i : nat) :
  V !! v0 c = Some p0 -> V !! v1 c = Some p1 ->
  V !! v2 c = Some p2 -> V !! v3 c = Some p3 ->
  (1 ≤ nbPoints c)%Z -> (i ≤ Z.to_nat (nbPoints c))%nat ->
  pointsOf V c !! i
  = Some (bezierPoint p0 p1 p2 p3
            (Qc_of_Z (Z.of_nat i) / Qc_of_Z (nbPoints c))%Qc).
Proof.
  intros E0 E1 E2 E3 Hn Hi.
  rewrite (pointsOf_valid V c p0 p1 p2 p3) by done.
  by rewrite lookup_map, lookup_seq_lt by lia.
Qed.

Lemma pointsOf_first V c p :
  validCurve V c -> V !! v0 c = Some p -> pointsOf V c !! 0%nat = Some p.
Proof.
  intros (_ & H1 & H2 & H3 & Hn) E0.
  apply lookup_lt_is_Some_2 in H1 as [p1 E1].
  apply lookup_lt_is_Some_2 in H2 as [p2 E2].
  apply lookup_lt_is_Some_2 in H3 as [p3 E3].
  rewrite (pointsOf_lookup V c p p1 p2 p3) by (done || lia).
  simpl. by rewrite parameter_first, bezierPoint_0.
Qed.

Lemma pointsOf_last V c p :
  validCurve V c -> V !! v3 c = Some p ->
  pointsOf V c !! Z.to_nat (nbPoints c) = Some p.
Proof.
  intros (H0 & H1 & H2 & _ & Hn) E3.
  apply lookup_lt_is_Some_2 in H0 as [p0 E0].
  apply lookup_lt_is_Some_2 in H1 as [p1 E1].
  apply lookup_lt_is_Some_2 in H2 as [p2 E2].
  rewrite (pointsOf_lookup V c p0 p1 p2 p) by (done || lia).
  rewrite Z2Nat.id by lia. by rewrite parameter_last, bezierPoint_1.
Qed.

Lemma polyline_app V cs1 cs2 :
  polyline V (cs1 ++ cs2) = polyline V cs1 ++ polyline V cs2.
Proof. unfold polyline. by rewrite map_app, concat_app. Qed.

(** C10: [getFinalCurvePoints] returns the concatenation, in order, of the
    sample sequences it has just cached in the curves, nothing removed: its
    length is the sum of their lengths, and where two adjacent curves agree
    on the coordinates of their joint, the last point of the one and the
    first point of the other are two consecutive points of the result, both
    equal to the joint. *)
Theorem polyline_is_concatenation s :
  Forall (validCurve (vectors s)) (curves s) ->
  exists points s',
    getFinalCurvePoints s = (Returned points, s') ∧
    map curve (curves s')
    = map (fun c => Some (pointsOf (vectors s) c)) (curves s) ∧
    points = concat (map (pointsOf (vectors s)) (curves s)) ∧
    length points
    = list_sum (map (fun c => length (pointsOf (vectors s) c)) (curves s)) ∧
    length points
    = list_sum (map (fun c => S (Z.to_nat (nbPoints c))) (curves s)) ∧
    (forall i c c' joint,
       curves s !! i = Some c -> curves s !! S i = Some c' ->
       vectors s !! v3 c = Some joint -> vectors s !! v0 c' = Some joint ->
       let k := (length (polyline (vectors s) (take i (curves s)))
                 + Z.to_nat (nbPoints c))%nat in
       points !! k = Some joint ∧ points !! S k = Some joint).
Proof.
  intros Hval. eexists _, _. split; [by apply getFinalCurvePoints_eq|].
  split_and!.
  - simpl. by rewrite map_map.
  - done.
  - unfold polyline. by rewrite length_concat, map_map.
  - unfold polyline. rewrite length_concat, map_map. f_equal.
    apply map_ext_Forall. eapply Forall_impl; [|exact Hval].
    intros c Hc. by apply length_pointsOf.
  - intros i c c' joint Hc Hc' E3 E0 k.
    assert (Hvc : validCurve (vectors s) c).
    { eapply Forall_forall in Hval; [exact Hval|].
      apply list_elem_of_In, list_elem_of_lookup. eauto. }
    assert (Hvc' : validCurve (vectors s) c').
    { eapply Forall_forall in Hval; [exact Hval|].
      apply list_elem_of_In, list_elem_of_lookup. eauto. }
    assert (Hsplit : curves s
                     = take i (curves s) ++ c :: c' :: drop (S (S i)) (curves s)).
    { rewrite <- (take_drop i (curves s)) at 1. f_equal.
      rewrite (drop_S _ _ _ Hc). f_equal. by rewrite (drop_S _ _ _ Hc'). }
    rewrite Hsplit at 1 2. rewrite polyline_app, !polyline_cons.
    pose proof (length_pointsOf _ _ Hvc) as Hlen.
    pose proof (length_pointsOf _ _ Hvc') as Hlen'.
    unfold k. split.
    + rewrite lookup_app_r by lia.
      rewrite lookup_app_l by lia.
      replace (_ + _ - _)%nat with (Z.to_nat (nbPoints c)) by lia.
      by apply pointsOf_last.
    + rewrite lookup_app_r by lia.
      rewrite lookup_app_r by lia.
      rewrite lookup_app_l by lia.
      replace (_ - _ - _)%nat with 0%nat by lia.
      by apply pointsOf_first.
Qed.

Lemma polyline_is_concatenation_witness :
  let s := new_Path3DMesh in
  exists points s',
    getFinalCurvePoints s = (Returned points, s') ∧
    map curve (curves s')
    = map (fun c => Some (pointsOf (vectors s) c)) (curves s) ∧
    points = concat (map (pointsOf (vectors s)) (curves s)) ∧
    length points
    = list_sum (map (fun c => length (pointsOf (vectors s) c)) (curves s)) ∧
    length points
    = list_sum (map (fun c => S (Z.to_nat (nbPoints c))) (curves s)) ∧
    (forall i c c' joint,
       curves s !! i = Some c -> curves s !! S i = Some c' ->
       vectors s !! v3 c = Some joint -> vectors s !! v0 c' = Some joint ->
       let k := (length (polyline (vectors s) (take i (curves s)))
                 + Z.to_nat (nbPoints c))%nat in
       points !! k = Some joint ∧ points !! S k = Some joint).
Proof.
  intros s. apply (polyline_is_concatenation s). by_evaluation.
Defined.

(** ** The default path and its handles *)

(** C2, as stated, fails: the combined polyline of the default path has 22
    points, not 21. *)
Lemma default_polyline_counterexample :
  let s := snd (show new_Path3DMesh) in
  ~ exists points,
      fst (getFinalCurvePoints s) = Returned points ∧
      length (_helpers s) = 3%nat ∧
      helperPositions s
      = [points !! 0%nat; points !! 10%nat; points !! 20%nat] ∧
      length points = 21%nat.
Proof.
  intros s (points & Hp & _ & _ & Hlen).
  rewrite getFinalCurvePoints_eq in Hp by by_evaluation.
  simpl in Hp. injection Hp as <-.
  vm_compute in Hlen. discriminate.
Qed.

(** C2, amended: on the default path, of 2 curves with 10 samples each,
    [show()] returns with 3 helpers; the combined polyline has 22 points and
    the helpers are at its points of index 0, 10 and 21, the last one. *)
Theorem default_path_handles :
  let s := snd (show new_Path3DMesh) in
  map nbPoints (curves new_Path3DMesh) = [10%Z; 10%Z] ∧
  fst (show new_Path3DMesh) = Returned tt ∧
  exists points,
    fst (getFinalCurvePoints s) = Returned points ∧
    length points = 22%nat ∧
    length (_helpers s) = 3%nat ∧
    helperPositions s
    = [points !! 0%nat; points !! 10%nat; points !! 21%nat].
Proof.
  intros s. split_and!; [vm_compute; reflexivity..|].
  exists (polyline (vectors s) (curves s)). split_and!.
  - by rewrite getFinalCurvePoints_eq by by_evaluation.
  - vm_compute; reflexivity.
  - vm_compute; reflexivity.
  - by_evaluation.
Qed.

(** ** Joints *)

(** C1, as stated, fails on the default path at construction: the end point
    of its first curve and the start point of its second curve are two
    objects. *)
Lemma joints_shared_counterexample : ~ jointsShared new_Path3DMesh.
Proof.
  intros H. specialize (H 0%nat). vm_compute in H.
  specialize (H _ _ eq_refl eq_refl). discriminate.
Qed.

Lemma bind_rebuilt V (cs : list IPath3DMeshCurve) :
  map (rebuilt V) cs ≫= (fun c => [v0 c; v1 c; v2 c; v3 c])
  = cs ≫= (fun c => [v0 c; v1 c; v2 c; v3 c]).
Proof. induction cs as [|c cs IH]; [done|]. simpl. do 4 f_equal. exact IH. Qed.

Lemma controlPoints_written t v s :
  controlPoints (written t v s) = controlPoints s.
Proof. by destruct t. Qed.

Lemma controlPoints_redrawn s : controlPoints (redrawn s) = controlPoints s.
Proof. unfold controlPoints. simpl. by rewrite bind_rebuilt. Qed.

Lemma controlPoints_redraw s s' :
  (if isVisible s then shown (redrawn s) s' else s' = redrawn s) ->
  controlPoints s' = controlPoints s.
Proof.
  unfold controlPoints. destruct (isVisible s).
  - intros (_ & -> & _). simpl. by rewrite !bind_rebuilt.
  - intros ->. simpl. by rewrite bind_rebuilt.
Qed.

(** No operation brings a control-point object into a path. *)
Lemma perform_controlPoints o s :
  pooled s ->
  controlPoints (snd (perform o s)) `sublist_of` controlPoints s.
Proof.
  intros [Hval Hpool]. destruct o as [| |slot p|id|index f p]; simpl.
  - destruct (show_spec s Hval) as (s' & -> & (_ & Hcs & _)). simpl in *.
    unfold controlPoints. by rewrite Hcs, bind_rebuilt.
  - by rewrite hide_eq.
  - rewrite dragHelper_eq.
    destruct (_helpers s !! slot) as [h|]; [|done]. cbn zeta.
    set (s1 := set_meshes (alter (setPosition p) h) s).
    destruct (meshes s1 !! h ≫= onMoved) as [index|]; [|done].
    rewrite helperCallback_eq by (unfold s1; auto with valid).
    destruct (targets (curves s1) index) as [[a b]|]; [|done].
    destruct (meshes s1 !! h) as [m|]; [|done]. simpl.
    by rewrite controlPoints_redrawn, !controlPoints_written.
  - rewrite removeSegment_eq. case_decide as Hlen; [done|].
    set (s1 := set_curves (delete id) s).
    assert (Hval1 : validPath s1) by (apply validPath_removed; [done|lia]).
    destruct (updateCurveGeometry_spec s1 Hval1) as (s' & -> & Hs'). simpl.
    rewrite (controlPoints_redraw s1 s' Hs').
    unfold controlPoints, s1. simpl.
    apply bind_sublist, sublist_delete.
  - rewrite editPoint_eq by done.
    destruct (curves s !! index) as [c|]; [|done].
    set (s1 := written (Some (pointOf f c)) p s).
    assert (Hval1 : validPath s1) by (unfold s1; auto with valid).
    destruct (updateCurveGeometry_spec s1 Hval1) as (s' & -> & Hs'). simpl.
    by rewrite (controlPoints_redraw s1 s' Hs').
Qed.

Lemma run_controlPoints ops : forall s,
  pooled s -> controlPoints (run ops s) `sublist_of` controlPoints s.
Proof.
  induction ops as [|o ops IH]; intros s Hs; [done|]. simpl.
  etrans; [by apply IH, perform_pooled|by apply perform_controlPoints].
Qed.

Lemma adjacent_distinct (cs : list IPath3DMeshCurve) i c c' :
  NoDup (cs ≫= (fun c => [v0 c; v1 c; v2 c; v3 c])) ->
  cs !! i = Some c -> cs !! S i = Some c' -> v3 c ≠ v0 c'.
Proof.
  intros Hnd Hc Hc'.
  assert (Hsplit : cs = take i cs ++ c :: c' :: drop (S (S i)) cs).
  { rewrite <- (take_drop i cs) at 1. f_equal.
    rewrite (drop_S _ _ _ Hc). f_equal. by rewrite (drop_S _ _ _ Hc'). }
  rewrite Hsplit in Hnd. rewrite bind_app in Hnd.
  apply list.NoDup_app in Hnd as (_ & _ & Hnd). simpl in Hnd.
  intros Heq. rewrite Heq in Hnd.
  apply list.NoDup_cons in Hnd as (_ & Hnd).
  apply list.NoDup_cons in Hnd as (_ & Hnd).
  apply list.NoDup_cons in Hnd as (_ & Hnd).
  apply list.NoDup_cons in Hnd as (Hnin & _).
  apply Hnin. apply list_elem_of_here.
Qed.

(** C1, amended: in the default path at construction the end point of the
    first curve and the start point of the second curve are two objects
    with the same coordinates (1, 1, 1), and a write to one of them is not
    seen through the other; and whatever the operations performed, on the
    default path or on any path whose control points are distinct objects,
    the end point of a curve and the start point of the next curve are never
    the same object. *)
Theorem joints_are_distinct_objects :
  (forall c c',
     curves new_Path3DMesh !! 0%nat = Some c ->
     curves new_Path3DMesh !! 1%nat = Some c' ->
     v3 c ≠ v0 c' ∧
     vectors new_Path3DMesh !! v3 c = Some (vec3 1 1 1 1 1 1) ∧
     vectors new_Path3DMesh !! v0 c' = Some (vec3 1 1 1 1 1 1) ∧
     forall p,
       vectors (snd (copyFrom (Some (v0 c')) p new_Path3DMesh)) !! v3 c
       = Some (vec3 1 1 1 1 1 1) ∧
       vectors (snd (copyFrom (Some (v3 c)) p new_Path3DMesh)) !! v0 c'
       = Some (vec3 1 1 1 1 1 1)) ∧
  (forall s ops i c c',
     pooled s -> NoDup (controlPoints s) ->
     curves (run ops s) !! i = Some c -> curves (run ops s) !! S i = Some c' ->
     v3 c ≠ v0 c') ∧
  (forall ops i c c',
     curves (run ops new_Path3DMesh) !! i = Some c ->
     curves (run ops new_Path3DMesh) !! S i = Some c' ->
     v3 c ≠ v0 c').
Proof.
  assert (Hgen : forall s ops i c c',
     pooled s -> NoDup (controlPoints s) ->
     curves (run ops s) !! i = Some c -> curves (run ops s) !! S i = Some c' ->
     v3 c ≠ v0 c').
  { intros s ops i c c' Hs Hnd Hc Hc'.
    apply (adjacent_distinct (curves (run ops s)) i); [|done|done].
    eapply sublist_NoDup; [exact Hnd|]. by apply run_controlPoints. }
  split_and!; [|exact Hgen|].
  - intros c c' Hc Hc'. vm_compute in Hc, Hc'.
    injection Hc as <-. injection Hc' as <-.
    cbn [v0 v3]. split_and!; [lia|vm_compute; reflexivity..|].
    intros p. rewrite !copyFrom_eq by (simpl; vm_compute; lia).
    cbn [written set_vectors vectors snd].
    rewrite !list_lookup_insert_ne by lia.
    split; vm_compute; reflexivity.
  - intros ops i c c'. apply Hgen; [apply pooled_new|].
    apply (bool_decide_unpack _). vm_compute. exact I.
Qed.

Lemma joints_are_distinct_objects_witness :
  let ops := [OpShow; OpDrag 1 (vec3 5 1 5 1 5 1); OpHide] in
  exists c c',
    curves (run ops new_Path3DMesh) !! 0%nat = Some c ∧
    curves (run ops new_Path3DMesh) !! 1%nat = Some c' ∧
    v3 c ≠ v0 c'.
Proof.
  intros ops. eexists _, _.
  split; [vm_compute; reflexivity|].
  split; [vm_compute; reflexivity|].
  apply (proj1 (proj2 joints_are_distinct_objects) new_Path3DMesh ops 0%nat).
  - by_evaluation.
  - by_evaluation.
  - vm_compute; reflexivity.
  - vm_compute; reflexivity.
Defined.

(** * Further properties *)

(** ** Rebuilding twice *)

(** X1: on a path whose curves are valid, a second [getFinalCurvePoints()]
    right after the first returns the same points and changes nothing. *)
Theorem getFinalCurvePoints_twice s :
  Forall (validCurve (vectors s)) (curves s) ->
  exists points s1,
    getFinalCurvePoints s = (Returned points, s1) ∧
    getFinalCurvePoints s1 = (Returned points, s1).
Proof.
  intros Hval. eexists _, _. split; [by apply getFinalCurvePoints_eq|].
  rewrite getFinalCurvePoints_eq
    by (simpl; by apply Forall_validCurve_rebuilt).
  simpl. rewrite polyline_rebuilt. f_equal.
  unfold set_curves; simpl. by rewrite map_map.
Qed.

Lemma getFinalCurvePoints_twice_witness :
  exists points s1,
    getFinalCurvePoints threeCurves = (Returned points, s1) ∧
    getFinalCurvePoints s1 = (Returned points, s1).
Proof. apply (getFinalCurvePoints_twice threeCurves). by_evaluation. Defined.

(** ** Caches and geometry are never stale *)

Lemma synced_redrawn s : synced (redrawn s).
Proof.
  split; simpl.
  - by rewrite map_map.
  - by rewrite polyline_rebuilt.
Qed.

Lemma synced_shown s s' : synced s -> shown s s' -> synced s'.
Proof.
  intros [Hcs Hgeo] (HV & Hcs' & _ & Hcol & Hgeo' & _).
  split.
  - rewrite HV, Hcs'. by rewrite map_map.
  - by rewrite Hgeo', Hgeo, HV, Hcol, Hcs', polyline_rebuilt.
Qed.

Lemma synced_redraw s s' :
  (if isVisible s then shown (redrawn s) s' else s' = redrawn s) -> synced s'.
Proof.
  destruct (isVisible s).
  - apply synced_shown, synced_redrawn.
  - intros ->. apply synced_redrawn.
Qed.

Lemma perform_synced o s : pooled s -> synced s -> synced (snd (perform o s)).
Proof.
  intros [Hval Hpool] Hs. destruct o as [| |slot p|id|index f p]; simpl.
  - destruct (show_spec s Hval) as (s' & -> & Hs'). simpl.
    by apply (synced_shown (set_isVisible true s)).
  - by rewrite hide_eq.
  - rewrite dragHelper_eq.
    destruct (_helpers s !! slot) as [h|]; [|done]. cbn zeta.
    set (s1 := set_meshes (alter (setPosition p) h) s).
    destruct (meshes s1 !! h ≫= onMoved) as [index|]; [|done].
    rewrite helperCallback_eq by (unfold s1; auto with valid).
    destruct (targets (curves s1) index) as [[a b]|]; [|done].
    destruct (meshes s1 !! h) as [m|]; [|done]. simpl.
    apply synced_redrawn.
  - rewrite removeSegment_eq. case_decide as Hlen; [done|].
    set (s1 := set_curves (delete id) s).
    assert (Hval1 : validPath s1) by (apply validPath_removed; [done|lia]).
    destruct (updateCurveGeometry_spec s1 Hval1) as (s' & -> & Hs'). simpl.
    by apply (synced_redraw s1).
  - rewrite editPoint_eq by done.
    destruct (curves s !! index) as [c|]; [|done].
    set (s1 := written (Some (pointOf f c)) p s).
    assert (Hval1 : validPath s1) by (unfold s1; auto with valid).
    destruct (updateCurveGeometry_spec s1 Hval1) as (s' & -> & Hs'). simpl.
    by apply (synced_redraw s1).
Qed.

(** X2: whatever the operations performed on the default path, or on any
    valid path that starts in that condition, every curve caches the samples
    of its control points as they now are and the geometry holds the vertex
    data of the current combined polyline. *)
Theorem caches_and_geometry_never_stale :
  (forall s ops, pooled s -> synced s -> synced (run ops s)) ∧
  (forall ops, synced (run ops new_Path3DMesh)).
Proof.
  assert (Hgen : forall ops s, pooled s -> synced s -> synced (run ops s)).
  { induction ops as [|o ops IH]; intros s Hp Hs; [done|]. simpl.
    apply IH; [by apply perform_pooled|by apply perform_synced]. }
  split.
  - intros s ops. apply Hgen.
  - intros ops. apply Hgen; [apply pooled_new|by_evaluation].
Qed.

Lemma caches_and_geometry_never_stale_witness :
  synced (run [OpShow; OpDrag 1 (vec3 5 1 5 1 5 1); OpRemove 0]
            threeCurves).
Proof.
  apply (proj1 caches_and_geometry_never_stale threeCurves); by_evaluation.
Defined.

(** ** Redrawing a visible path *)

(** X3: on a visible path whose pool has its [curves.length + 1] helpers,
    [updateCurveGeometry()] and [show()] return with the same helpers in the
    pool, and every one of them has been disposed: [_getHelper] pushes the
    pooled helper a second time and the pruning loop disposes what it cuts
    off. *)
Theorem redraw_disposes_pooled_helpers s :
  pooled s -> isVisible s = true ->
  (exists s', updateCurveGeometry s = (Returned tt, s') ∧
     _helpers s' = _helpers s ∧
     Forall (fun h : ref => disposed <$> meshes s' !! h = Some true)
       (_helpers s')) ∧
  (exists s', show s = (Returned tt, s') ∧
     _helpers s' = _helpers s ∧
     Forall (fun h : ref => disposed <$> meshes s' !! h = Some true)
       (_helpers s')).
Proof.
  intros [Hval Hpool] Hvis. rewrite Hvis in Hpool.
  assert (Hshown : forall s0 s', _helpers s0 = _helpers s ->
            length (curves s0) = length (curves s) -> shown s0 s' ->
            _helpers s' = _helpers s ∧
            Forall (fun h : ref => disposed <$> meshes s' !! h = Some true)
              (_helpers s')).
  { intros s0 s' Hh Hn (_ & _ & _ & _ & _ & _ & _ & _ & Hold).
    destruct Hold as (Hpool' & _ & Hd); [rewrite Hh, Hn; lia|].
    rewrite Hh, Hn in Hpool'. rewrite take_ge in Hpool' by lia.
    rewrite Hh in Hd. by rewrite Hpool'. }
  split.
  - destruct (updateCurveGeometry_spec s Hval) as (s' & Hrun & Hs').
    rewrite Hvis in Hs'. exists s'. split; [done|].
    apply (Hshown (redrawn s)); [done| |done]. simpl. by rewrite length_map.
  - destruct (show_spec s Hval) as (s' & Hrun & Hs').
    exists s'. split; [done|]. by apply (Hshown (set_isVisible true s)).
Qed.

Lemma redraw_disposes_pooled_helpers_witness :
  let s := snd (show new_Path3DMesh) in
  (exists s', updateCurveGeometry s = (Returned tt, s') ∧
     _helpers s' = _helpers s ∧
     Forall (fun h : ref => disposed <$> meshes s' !! h = Some true)
       (_helpers s')) ∧
  (exists s', show s = (Returned tt, s') ∧
     _helpers s' = _helpers s ∧
     Forall (fun h : ref => disposed <$> meshes s' !! h = Some true)
       (_helpers s')).
Proof.
  intros s. apply (redraw_disposes_pooled_helpers s).
  - by_evaluation.
  - vm_compute; reflexivity.
Defined.

(** ** A callback past the end of the path *)

(** X4: the callback of a slot beyond [curves.length] throws a TypeError
    before it writes anything: no control point, cache or vertex data
    changes.  So does the callback of slot 0 on a path without curve. *)
Theorem callback_beyond_path_throws s index helper :
  (length (curves s) < index)%nat ∨ (index = 0%nat ∧ curves s = []) ->
  helperCallback index helper s = (Thrown TypeError, s).
Proof.
  intros Hi. unfold helperCallback. msimpl.
  destruct Hi as [Hi|[-> Hnil]].
  - rewrite decide_False by lia. rewrite decide_True by lia.
    by rewrite (lookup_ge_None_2 (curves s) index) by lia.
  - rewrite Hnil. simpl. done.
Qed.

Lemma callback_beyond_path_throws_witness :
  let s := snd (removeSegment 0 (snd (show new_Path3DMesh))) in
  helperCallback 2 2 s = (Thrown TypeError, s).
Proof.
  intros s. apply (callback_beyond_path_throws s 2%nat 2%nat).
  left. by_evaluation.
Defined.

(** ** Editing one control point *)

Lemma editPoint_effect s index f p c :
  validPath s -> curves s !! index = Some c ->
  (pointOf f c < length (vectors s))%nat
  ∧ exists s',
      editPoint index f p s = (Returned tt, s') ∧
      vectors s' = <[pointOf f c := p]> (vectors s) ∧
      curves s' = map (rebuilt (vectors s')) (curves s) ∧
      _geometry s'
      = Some (lineSystem (color s) (polyline (vectors s') (curves s))).
Proof.
  intros Hval Hc.
  assert (Hin : (pointOf f c < length (vectors s))%nat).
  { destruct Hval as (_ & Hcs & _).
    eapply Forall_forall in Hcs;
      [|apply list_elem_of_In, list_elem_of_lookup; eauto].
    destruct Hcs as (? & ? & ? & ? & _). by destruct f. }
  split; [done|].
  rewrite editPoint_eq, Hc by done.
  set (s1 := written (Some (pointOf f c)) p s).
  assert (Hval1 : validPath s1) by (unfold s1; auto with valid).
  destruct (updateCurveGeometry_spec s1 Hval1) as (s' & Hrun & Hs').
  exists s'. split; [done|].
  destruct (isVisible s1).
  - destruct Hs' as (HV & Hcs & _ & _ & Hgeo & _). simpl in *.
    rewrite HV, Hcs, Hgeo, map_map. done.
  - subst s'. simpl. done.
Qed.

(** X5: the edit of a control point of a curve of a valid path returns; the
    one [Vector3] object of that point takes the new coordinates and every
    other object keeps its own, the start or end point of the neighbouring
    curve included; the curves are rebuilt from the new coordinates and the
    geometry takes their combined polyline. *)
Theorem editPoint_writes_one_point s index f p c :
  validPath s -> curves s !! index = Some c ->
  exists s',
    editPoint index f p s = (Returned tt, s') ∧
    vectors s' = <[pointOf f c := p]> (vectors s) ∧
    vectors s' !! pointOf f c = Some p ∧
    (forall q : ref, q ≠ pointOf f c -> vectors s' !! q = vectors s !! q) ∧
    curves s' = map (rebuilt (vectors s')) (curves s) ∧
    _geometry s'
    = Some (lineSystem (color s) (polyline (vectors s') (curves s))).
Proof.
  intros Hval Hc.
  destruct (editPoint_effect s index f p c Hval Hc)
    as (Hin & s' & Hrun & HV & Hcs & Hgeo).
  exists s'. rewrite HV in *. split_and!; try done.
  - by apply list_lookup_insert_eq.
  - intros q Hq. by apply list_lookup_insert_ne.
Qed.

Lemma editPoint_writes_one_point_witness :
  let p := vec3 5 1 5 1 5 1 in
  let c := mkCurve None 10 4 5 6 7 in
  exists s',
    editPoint 1 StartPoint p fields = (Returned tt, s') ∧
    vectors s' = <[pointOf StartPoint c := p]> (vectors fields) ∧
    vectors s' !! pointOf StartPoint c = Some p ∧
    (forall q : ref, q ≠ pointOf StartPoint c ->
       vectors s' !! q = vectors fields !! q) ∧
    curves s' = map (rebuilt (vectors s')) (curves fields) ∧
    _geometry s'
    = Some (lineSystem (color fields)
              (polyline (vectors s') (curves fields))).
Proof.
  intros p c. apply (editPoint_writes_one_point fields 1%nat StartPoint p c).
  - by_evaluation.
  - reflexivity.
Defined.

(** ** The helpers [show()] creates on a hidden path *)

Lemma alter_last {A} (f : A -> A) (l : list A) (a : A) :
  alter f (length l) (l ++ [a]) = l ++ [f a].
Proof.
  replace (length l) with (length l + 0)%nat at 1 by lia.
  by rewrite alter_app_r.
Qed.

Lemma placeHelper_fresh k p s :
  _helpers s !! k = None ->
  meshes (placeHelper k p s)
  = meshes s ++ [mkMesh p false (_helperRef s) (Some k)].
Proof.
  intros Hk. unfold placeHelper, afterGetHelper, helperFor.
  cbn [set_meshes meshes]. rewrite Hk.
  by rewrite alter_last, alter_last.
Qed.

Lemma placeHelper_new s0 k p s :
  _helpers s0 = [] -> _helperRef s0 = None -> placing s0 k s ->
  meshes (placeHelper k p s)
  = meshes s
    ++ [mkMesh p false
          (match k with O => None | S _ => Some (length (meshes s0)) end)
          (Some k)].
Proof.
  intros Hh Hr (_ & _ & _ & _ & _ & _ & _ & Hfresh & _).
  destruct (Hfresh Hh Hr) as (Hs & _ & Href & _).
  rewrite placeHelper_fresh by (rewrite Hs; by apply lookup_seq_ge).
  rewrite Href. by destruct k.
Qed.

Lemma layout_loop s0 points :
  Forall (validCurve (vectors s0)) (curves s0) ->
  _helpers s0 = [] -> _helperRef s0 = None ->
  points = polyline (vectors s0) (curves s0) ->
  exists curveStart s',
    forEach (fun (curveStart : Z) c index =>
               s ← _getHelper index;
               p ← defined (at_index points curveStart);
               moveTo s p;;
               mret (curveStart + nbPoints c)%Z)
            (curves s0) 0%nat 0%Z s0
    = (Returned curveStart, s')
    ∧ placing s0 (length (curves s0)) s'
    ∧ meshes s'
      = meshes s0
        ++ map (newHelper points (curves s0) (length (meshes s0)))
               (seq 0 (length (curves s0))).
Proof.
  intros Hval Hh Hr ->.
  edestruct (forEach_inv
    (fun (curveStart : Z) c index =>
               s ← _getHelper index;
               p ← defined (at_index (polyline (vectors s0) (curves s0)) curveStart);
               moveTo s p;;
               mret (curveStart + nbPoints c)%Z)
    (fun k acc s =>
       placing s0 k s ∧ acc = curveStartAt (curves s0) k ∧
       meshes s
       = meshes s0
         ++ map (newHelper (polyline (vectors s0) (curves s0)) (curves s0)
                   (length (meshes s0)))
                (seq 0 k))
    (curves s0) 0%nat 0%Z s0) as (acc & s' & Hrun & Hp & _ & Hm).
  - intros k c acc s Hc (Hp & -> & Hm). cbn [Nat.add] in *.
    pose proof (lookup_lt_Some _ _ _ Hc) as Hk.
    destruct (at_index_Some (polyline (vectors s0) (curves s0))
                (curveStartAt (curves s0) k)) as [p Hpt].
    { by apply curveStartAt_bounds. }
    exists (curveStartAt (curves s0) k + nbPoints c)%Z, (placeHelper k p s).
    split.
    + erewrite bind_returned; [|apply _getHelper_eq].
      rewrite Hpt. reflexivity.
    + split_and!.
      * apply placing_step; [done|lia].
      * by rewrite (curveStartAt_S _ _ c).
      * rewrite (placeHelper_new s0) by done. rewrite Hm, seq_S, map_app.
        rewrite <- app_assoc. do 2 f_equal. simpl.
        unfold newHelper, handlePoint. rewrite decide_True by lia. by rewrite Hpt.
  - split_and!; [apply placing_start; rewrite Hh; constructor|done|].
    simpl. by rewrite app_nil_r.
  - by exists acc, s'.
Qed.

Lemma Path3DMesh_ext s s' :
  vectors s = vectors s' -> meshes s = meshes s' -> curves s = curves s' ->
  _helpers s = _helpers s' -> _helperRef s = _helperRef s' ->
  isVisible s = isVisible s' -> color s = color s' ->
  _geometry s = _geometry s' -> s = s'.
Proof. destruct s, s'; simpl; intros; by subst. Qed.

(** The whole of what [show()] does to a hidden path: the pool takes
    [curves.length + 1] new meshes, appended to the store. *)
Lemma show_hidden_eq s :
  validPath s -> _helpers s = [] -> _helperRef s = None ->
  show s
  = (Returned tt,
     mkPath3DMesh (vectors s)
       (meshes s
        ++ map (newHelper (polyline (vectors s) (curves s)) (curves s)
                  (length (meshes s)))
               (seq 0 (S (length (curves s)))))
       (map (rebuilt (vectors s)) (curves s))
       (seq (length (meshes s)) (S (length (curves s))))
       (Some (length (meshes s)))
       true (color s) (_geometry s)).
Proof.
  intros (Hn & Hval & _) Hh Hr. unfold show.
  erewrite bind_returned; [|reflexivity]. unfold _showHelpers.
  set (sv := set_isVisible true s).
  erewrite bind_returned; [|by apply getFinalCurvePoints_eq].
  set (s0 := set_curves (map (rebuilt (vectors sv))) sv).
  set (points := polyline (vectors sv) (curves sv)).
  assert (Hn0 : length (curves s0) = length (curves s)).
  { unfold s0; simpl. by rewrite length_map. }
  assert (Hstart : forall k, curveStartAt (curves s0) k = curveStartAt (curves s) k).
  { intros k. unfold curveStartAt, s0. simpl.
    rewrite firstn_map, map_map. done. }
  destruct (layout_loop s0 points) as (acc & s1 & Hloop & Hp1 & Hm1).
  { unfold s0; simpl. by apply Forall_validCurve_rebuilt. }
  { done. }
  { done. }
  { unfold s0, points; simpl. by rewrite polyline_rebuilt. }
  erewrite bind_returned; [|reflexivity].
  erewrite bind_returned; [|exact Hloop].
  erewrite bind_returned; [|apply _getHelper_eq].
  destruct (at_index_Some points (Z.of_nat (length points) - 1)) as [p Hpt].
  { pose proof (polyline_nonempty _ _ Hval Hn) as Hpl.
    change (polyline (vectors s) (curves s)) with points in Hpl. lia. }
  rewrite Hpt.
  pose proof (placing_step s0 _ p s1 Hp1 ltac:(lia)) as Hp2.
  pose proof (placeHelper_new s0 (length (curves s0)) p s1 Hh Hr Hp1) as Hm2.
  set (s2 := placeHelper (length (curves s0)) p s1) in *.
  assert (Hrun : (moveTo (helperFor (length (curves s0)) s1) p ≫= λ _ : (),
             gets _helpers ≫= λ hs : list ref, removeLastHelpers (length hs - 1))
            (afterGetHelper (length (curves s0)) s1)
          = removeLastHelpers (length (_helpers s2) - 1) s2) by reflexivity.
  change (defined (Some p)) with (mret (M := M) p).
  erewrite bind_returned; [|reflexivity].
  rewrite Hrun. clear Hrun.
  destruct Hp2 as (HV & Hcs & Hvis & Hcol & Hgeo & Hlen & _ & Hfresh & _).
  destruct (Hfresh Hh Hr) as (Hs & _ & Href & _).
  rewrite removeLastHelpers_eq by (rewrite Hlen; lia).
  clearbody s2. f_equal.
  apply Path3DMesh_ext;
    cbn [set_meshes set_helpers set_curves set_isVisible vectors meshes curves
         _helpers _helperRef isVisible color _geometry];
    rewrite ?Hcs, ?Hn0, ?Hs, ?Hn0;
    rewrite ?take_ge, ?drop_ge by (rewrite length_seq; lia);
    try done.
  unfold disposeAll; simpl foldr.
  rewrite Hm2, Hm1, Hn0, (seq_S (length (curves s))), map_app.
  rewrite <- app_assoc. do 2 f_equal.
  - apply map_ext_in. intros j Hj. apply in_seq in Hj.
    unfold newHelper, handlePoint. rewrite Hn0, Hstart. done.
  - simpl. unfold newHelper, handlePoint. rewrite decide_False by lia.
    change (polyline (vectors s) (curves s)) with points.
    rewrite Hpt. by destruct (length (curves s)).
Qed.

Lemma lookup_new_helper s j :
  (j ≤ length (curves s))%nat ->
  (meshes s
   ++ map (newHelper (polyline (vectors s) (curves s)) (curves s)
             (length (meshes s)))
          (seq 0 (S (length (curves s))))) !! (length (meshes s) + j)%nat
  = Some (newHelper (polyline (vectors s) (curves s)) (curves s)
            (length (meshes s)) j).
Proof.
  intros Hj. rewrite lookup_app_r by lia.
  replace (length (meshes s) + j - length (meshes s))%nat with j by lia.
  by rewrite lookup_map, lookup_seq_lt by lia.
Qed.

Lemma show_hidden_state s s' :
  validPath s -> _helpers s = [] -> _helperRef s = None ->
  show s = (Returned tt, s') ->
  s' = mkPath3DMesh (vectors s)
       (meshes s
        ++ map (newHelper (polyline (vectors s) (curves s)) (curves s)
                  (length (meshes s)))
               (seq 0 (S (length (curves s)))))
       (map (rebuilt (vectors s)) (curves s))
       (seq (length (meshes s)) (S (length (curves s))))
       (Some (length (meshes s)))
       true (color s) (_geometry s).
Proof.
  intros Hval Hh Hr Hshow.
  pose proof (show_hidden_eq s Hval Hh Hr) as E. rewrite Hshow in E.
  apply (f_equal snd) in E. exact E.
Qed.

Lemma helperPositions_shown s s' j :
  validPath s -> _helpers s = [] -> _helperRef s = None ->
  show s = (Returned tt, s') -> (j ≤ length (curves s))%nat ->
  helperPositions s' !! j
  = Some (Some (position
       (newHelper (polyline (vectors s) (curves s)) (curves s)
          (length (meshes s)) j))).
Proof.
  intros Hval Hh Hr Hshow Hj.
  rewrite (show_hidden_state s s') by done. unfold helperPositions.
  cbn [meshes _helpers].
  rewrite lookup_map, lookup_seq_lt by lia. cbn [fmap option_fmap option_map].
  by rewrite lookup_new_helper.
Qed.

Lemma curveStartAt_rebuilt V cs k :
  curveStartAt (map (rebuilt V) cs) k = curveStartAt cs k.
Proof. unfold curveStartAt. by rewrite firstn_map, map_map. Qed.

Lemma length_polyline_take V cs : forall k,
  Forall (validCurve V) cs -> (k ≤ length cs)%nat ->
  Z.of_nat (length (polyline V (take k cs)))
  = (curveStartAt cs k + Z.of_nat k)%Z.
Proof.
  induction k as [|k IH]; intros Hval Hk.
  - by rewrite take_0.
  - destruct (lookup_lt_is_Some_2 cs k) as [c Hc]; [lia|].
    rewrite (take_S_r _ _ c), polyline_app, length_app by done.
    rewrite polyline_cons, length_app, length_pointsOf
      by (eapply Forall_lookup_1; eauto).
    rewrite (curveStartAt_S _ _ c) by done.
    specialize (IH Hval ltac:(lia)).
    assert (1 ≤ nbPoints c)%Z
      by (eapply (Forall_lookup_1 (validCurve V)) in Hc as (_&_&_&_&?); eauto).
    unfold polyline at 2. simpl. lia.
Qed.

(** The point of the combined polyline at the [i]-th sample of the curve
    [k]. *)
Lemma polyline_lookup_curve V cs k c (i : nat) :
  Forall (validCurve V) cs -> cs !! k = Some c ->
  (i ≤ Z.to_nat (nbPoints c))%nat ->
  polyline V cs !! (length (polyline V (take k cs)) + i)%nat
  = pointsOf V c !! i.
Proof.
  intros Hval Hc Hi.
  assert (E : polyline V cs
              = polyline V (take k cs)
                ++ pointsOf V c ++ polyline V (drop (S k) cs)).
  { by rewrite <- polyline_cons, <- polyline_app, take_drop_middle. }
  rewrite E at 1.
  rewrite lookup_app_r by lia.
  replace (length (polyline V (take k cs)) + i
           - length (polyline V (take k cs)))%nat with i by lia.
  rewrite lookup_app_l; [done|].
  rewrite length_pointsOf by (eapply Forall_lookup_1; eauto). lia.
Qed.

(** X6: [show()] on a hidden valid path creates exactly [curves.length + 1]
    meshes and leaves every mesh that existed as it was.  The first mesh
    created is the sphere: it becomes [_helperRef] and the helper of slot 0;
    the helper of every later slot is an instance of that sphere.  The pool
    holds the new meshes in the order of their creation. *)
Theorem show_creates_sphere_and_instances s :
  validPath s -> _helpers s = [] -> _helperRef s = None ->
  exists s',
    show s = (Returned tt, s')
    ∧ length (meshes s') = (length (meshes s) + S (length (curves s)))%nat
    ∧ take (length (meshes s)) (meshes s') = meshes s
    ∧ _helpers s' = seq (length (meshes s)) (S (length (curves s)))
    ∧ _helperRef s' = Some (length (meshes s))
    ∧ sourceMesh <$> meshes s' !! length (meshes s) = Some None
    ∧ (forall j, (1 ≤ j ≤ length (curves s))%nat ->
         sourceMesh <$> meshes s' !! (length (meshes s) + j)%nat
         = Some (Some (length (meshes s)))).
Proof.
  intros Hval Hh Hr. eexists. split; [by apply show_hidden_eq|].
  cbn [meshes _helpers _helperRef].
  split_and!; try done.
  - by rewrite length_app, length_map, length_seq.
  - by rewrite take_app_length.
  - pose proof (lookup_new_helper s 0 ltac:(lia)) as H0.
    rewrite Nat.add_0_r in H0. by rewrite H0.
  - intros j Hj. rewrite lookup_new_helper by lia.
    destruct j; [lia|done].
Qed.

Lemma show_creates_sphere_and_instances_witness :
  exists s',
    show threeCurves = (Returned tt, s')
    ∧ length (meshes s') = (length (meshes threeCurves) + 4)%nat
    ∧ _helperRef s' = Some (length (meshes threeCurves)).
Proof.
  destruct (show_creates_sphere_and_instances threeCurves)
    as (s' & Hshow & Hlen & _ & _ & Href & _).
  - by_evaluation.
  - reflexivity.
  - reflexivity.
  - exists s'. split_and!; [exact Hshow|exact Hlen|exact Href].
Defined.

(** X7: after [show()] on a hidden valid path the helpers sit on the points
    [_showHelpers] reads from the combined polyline: the helper of slot 0 on
    the start point of the first curve, the helper of slot 1 on the end
    point of the first curve, and the helper of the last slot on the end
    point of the last curve. *)
Theorem show_places_handles_on_polyline s c0 cl a b e :
  validPath s -> _helpers s = [] -> _helperRef s = None ->
  curves s !! 0%nat = Some c0 ->
  curves s !! (length (curves s) - 1)%nat = Some cl ->
  vectors s !! v0 c0 = Some a -> vectors s !! v3 c0 = Some b ->
  vectors s !! v3 cl = Some e ->
  exists s',
    show s = (Returned tt, s')
    ∧ helperPositions s' = derivedPositions s'
    ∧ helperPositions s' !! 0%nat = Some (Some a)
    ∧ helperPositions s' !! 1%nat = Some (Some b)
    ∧ helperPositions s' !! length (curves s) = Some (Some e).
Proof.
  intros Hval Hh Hr Hc0 Hcl Ea Eb Ee.
  pose proof Hval as (Hn & Hcs & _).
  set (V := vectors s) in *. set (cs := curves s) in *.
  set (pts := polyline V cs).
  assert (Hlast : at_index pts (Z.of_nat (length pts) - 1) = Some e).
  { pose proof (length_polyline_take V cs (length cs - 1) Hcs ltac:(lia)) as Hl.
    pose proof (polyline_lookup_curve V cs _ cl (Z.to_nat (nbPoints cl)) Hcs Hcl
                  ltac:(lia)) as Hp.
    assert (Hvl : validCurve V cl) by (eapply Forall_lookup_1; eauto).
    rewrite (pointsOf_last V cl e) in Hp by done.
    assert (Hlen : length pts
                   = (length (polyline V (take (length cs - 1) cs))
                      + S (Z.to_nat (nbPoints cl)))%nat).
    { assert (E : pts = polyline V (take (length cs - 1) cs)
                        ++ pointsOf V cl
                        ++ polyline V (drop (S (length cs - 1)) cs)).
      { unfold pts.
        by rewrite <- polyline_cons, <- polyline_app, take_drop_middle. }
      rewrite E at 1. rewrite !length_app, length_pointsOf by done.
      rewrite drop_ge by lia. unfold polyline at 2. simpl. lia. }
    unfold at_index. destruct (Z.ltb_spec (Z.of_nat (length pts) - 1) 0); [lia|].
    rewrite <- Hp. f_equal. lia. }
  assert (Hstart : forall k c p, cs !! k = Some c -> V !! v0 c = Some p ->
            at_index pts (curveStartAt cs k)
            = pts !! (length (polyline V (take k cs)) - k)%nat).
  { intros k c p Hc _.
    pose proof (lookup_lt_Some _ _ _ Hc) as Hk.
    pose proof (length_polyline_take V cs k Hcs ltac:(lia)) as Hl.
    pose proof (curveStartAt_bounds V cs k Hcs Hk).
    unfold at_index. destruct (Z.ltb_spec (curveStartAt cs k) 0); [lia|].
    f_equal. lia. }
  assert (Hfirst : at_index pts (curveStartAt cs 0) = Some a).
  { rewrite (Hstart 0%nat c0 a) by done. rewrite take_0.
    pose proof (polyline_lookup_curve V cs 0 c0 0 Hcs Hc0 ltac:(lia)) as Hp.
    rewrite take_0 in Hp. simpl in Hp |- *. unfold pts. rewrite Hp.
    apply pointsOf_first; [|done]. eapply Forall_lookup_1; eauto. }
  assert (Hsecond : (1 < length cs)%nat ->
            at_index pts (curveStartAt cs 1) = Some b).
  { intros H1. pose proof (curveStartAt_bounds V cs 1 Hcs H1) as Hb.
    assert (Hv0 : validCurve V c0) by (eapply Forall_lookup_1; eauto).
    pose proof (polyline_lookup_curve V cs 0 c0 (Z.to_nat (nbPoints c0)) Hcs Hc0
                  ltac:(lia)) as Hp.
    rewrite take_0 in Hp. simpl in Hp.
    rewrite (pointsOf_last V c0 b) in Hp by done.
    rewrite (curveStartAt_S _ _ c0) in * by done.
    change (curveStartAt cs 0) with 0%Z in *.
    unfold at_index. destruct (Z.ltb_spec (0 + nbPoints c0) 0); [lia|].
    rewrite <- Hp. f_equal. }
  destruct (show_spec s Hval) as (s' & Hshow & _).
  exists s'. split; [done|].
  pose proof (helperPositions_shown s s' 0 Hval Hh Hr Hshow ltac:(lia)) as H0.
  pose proof (helperPositions_shown s s' 1 Hval Hh Hr Hshow Hn) as H1.
  pose proof (helperPositions_shown s s' _ Hval Hh Hr Hshow (le_n _)) as Hl.
  unfold newHelper, handlePoint in H0, H1, Hl; cbn [position] in H0, H1, Hl.
  fold V cs pts in H0, H1, Hl.
  rewrite decide_True in H0 by lia. rewrite decide_False in Hl by lia.
  rewrite Hfirst in H0. rewrite Hlast in Hl.
  split_and!; [|done| |done].
  - apply list_eq. intros i.
    assert (Hs' : vectors s' = V ∧ curves s' = map (rebuilt V) cs).
    { by rewrite (show_hidden_state s s') by done. }
    destruct Hs' as (HV' & Hcs').
    unfold derivedPositions. rewrite HV', Hcs', polyline_rebuilt, length_map.
    fold pts.
    destruct (decide (i ≤ length cs)%nat) as [Hi|Hi].
    + rewrite (helperPositions_shown s s' i) by done.
      unfold newHelper, handlePoint; cbn [position]. fold V cs pts.
      destruct (decide (i < length cs)%nat) as [Hlt|Hge].
      * rewrite lookup_app_l by (rewrite length_map, length_seq; lia).
        rewrite lookup_map, lookup_seq_lt by lia. simpl.
        rewrite curveStartAt_rebuilt.
        destruct (at_index_Some pts (curveStartAt cs i)) as [p ->]; [|done].
        by apply curveStartAt_bounds.
      * rewrite lookup_app_r by (rewrite length_map, length_seq; lia).
        rewrite length_map, length_seq.
        replace (i - length cs)%nat with 0%nat by lia. simpl.
        by rewrite Hlast.
    + rewrite !lookup_ge_None_2; [done| |].
      * rewrite length_app, length_map, length_seq. simpl. lia.
      * unfold helperPositions. rewrite length_map.
        rewrite (show_hidden_state s s') by done.
        cbn [_helpers]. rewrite length_seq. fold cs. lia.
  - destruct (decide (1 < length cs)%nat) as [Hlt|Hge].
    + by rewrite Hsecond in H1.
    + assert (Hone : length cs = 1%nat) by lia.
      rewrite Hone in Hcl. simpl in Hcl.
      assert (cl = c0) by congruence. subst cl.
      assert (e = b) by congruence. subst e.
      by rewrite Hlast in H1.
Qed.

Lemma show_places_handles_on_polyline_witness :
  exists s',
    show threeCurves = (Returned tt, s')
    ∧ helperPositions s' !! 0%nat = Some (Some (vec3 0 1 0 1 0 1))
    ∧ helperPositions s' !! 1%nat = Some (Some (vec3 1 1 1 1 1 1))
    ∧ helperPositions s' !! 3%nat = Some (Some (vec3 3 1 3 1 0 1)).
Proof.
  destruct (show_places_handles_on_polyline threeCurves
              (rebuilt (vectors threeCurves) (mkCurve None 10 0 1 2 3))
              (rebuilt (vectors threeCurves) (mkCurve None 10 8 9 10 11))
              (vec3 0 1 0 1 0 1) (vec3 1 1 1 1 1 1) (vec3 3 1 3 1 0 1))
    as (s' & Hshow & _ & H0 & H1 & H3).
  - by_evaluation.
  - reflexivity.
  - reflexivity.
  - by_evaluation.
  - by_evaluation.
  - reflexivity.
  - reflexivity.
  - reflexivity.
  - exists s'. split_and!; [exact Hshow|exact H0|exact H1|exact H3].
Defined.

(** X8: [curveStart] advances by [nbPoints] for a curve that contributes
    [nbPoints + 1] points to the combined polyline.  So after [show()] on a
    hidden valid path the helper of the slot [j + 1], when it is not the
    last slot, sits on the sample [nbPoints - j] of the curve [j]: [j]
    samples before the end point of that curve, and on the joint itself
    only for [j = 0]. *)
Theorem handle_lags_behind_joint s j c :
  validPath s -> _helpers s = [] -> _helperRef s = None ->
  curves s !! j = Some c -> (S j < length (curves s))%nat ->
  (j ≤ Z.to_nat (nbPoints c))%nat ->
  exists s',
    show s = (Returned tt, s')
    ∧ helperPositions s' !! S j
      = Some (pointsOf (vectors s) c !! (Z.to_nat (nbPoints c) - j)%nat).
Proof.
  intros Hval Hh Hr Hc Hj Hn.
  pose proof Hval as (_ & Hcs & _).
  destruct (show_spec s Hval) as (s' & Hshow & _).
  exists s'. split; [done|].
  rewrite (helperPositions_shown s s' (S j)) by (done || lia).
  unfold newHelper, handlePoint; cbn [position]. rewrite decide_True by lia.
  set (V := vectors s) in *. set (cs := curves s) in *.
  pose proof (length_polyline_take V cs j Hcs ltac:(lia)) as Hl.
  pose proof (curveStartAt_bounds V cs (S j) Hcs Hj) as Hb.
  pose proof (curveStartAt_bounds V cs j Hcs ltac:(lia)) as Hb'.
  assert (Hvc : validCurve V c) by (eapply Forall_lookup_1; eauto).
  pose proof Hvc as (_ & _ & _ & _ & Hnb).
  rewrite (curveStartAt_S _ _ c) in * by done.
  rewrite <- (polyline_lookup_curve V cs j c) by (done || lia).
  unfold at_index.
  destruct (Z.ltb_spec (curveStartAt cs j + nbPoints c) 0); [lia|].
  destruct (at_index_Some (polyline V cs) (curveStartAt cs j + nbPoints c))
    as [p Hp]; [done|].
  unfold at_index in Hp.
  destruct (Z.ltb_spec (curveStartAt cs j + nbPoints c) 0); [lia|].
  rewrite Hp. simpl. rewrite <- Hp. do 2 f_equal. lia.
Qed.

Lemma handle_lags_behind_joint_witness :
  exists s',
    show threeCurves = (Returned tt, s')
    ∧ helperPositions s' !! 2%nat
      = Some (pointsOf (vectors threeCurves)
                (rebuilt (vectors threeCurves) (mkCurve None 10 4 5 6 7))
              !! 9%nat).
Proof.
  apply (handle_lags_behind_joint threeCurves 1
           (rebuilt (vectors threeCurves) (mkCurve None 10 4 5 6 7))).
  - by_evaluation.
  - reflexivity.
  - reflexivity.
  - by_evaluation.
  - by_evaluation.
  - by_evaluation.
Defined.

(** ** The helpers of a visible path after a redraw *)

Lemma placeHelper_pooled k p s h :
  _helpers s !! k = Some h ->
  placeHelper k p s
  = mkPath3DMesh (vectors s)
      (alter (setPosition p) h (alter (setOnMoved k) h (meshes s)))
      (curves s) (_helpers s ++ [h]) (_helperRef s)
      (isVisible s) (color s) (_geometry s).
Proof.
  intros Hk. unfold placeHelper, afterGetHelper, helperFor, set_meshes.
  cbn [vectors meshes curves _helpers _helperRef isVisible color _geometry].
  rewrite Hk. reflexivity.
Qed.

Lemma refetched_S points cs hs k ms h :
  hs !! k = Some h ->
  refetched points cs hs (S k) ms
  = alter (setPosition (handlePoint points cs k)) h
      (alter (setOnMoved k) h (refetched points cs hs k ms)).
Proof.
  intros Hk. unfold refetched. rewrite seq_S, foldl_app. simpl. by rewrite Hk.
Qed.

Lemma handlePoint_rebuilt V points cs k :
  handlePoint points (map (rebuilt V) cs) k = handlePoint points cs k.
Proof. unfold handlePoint. by rewrite length_map, curveStartAt_rebuilt. Qed.

Lemma refetched_rebuilt V points cs hs k ms :
  refetched points (map (rebuilt V) cs) hs k ms = refetched points cs hs k ms.
Proof.
  induction k as [|k IH]; [done|].
  unfold refetched in *. rewrite seq_S, !foldl_app. simpl. rewrite IH.
  destruct (hs !! k); [|done]. by rewrite handlePoint_rebuilt.
Qed.

Lemma refetch_loop s0 points :
  Forall (validCurve (vectors s0)) (curves s0) ->
  Forall (fun h : ref => (h < length (meshes s0))%nat) (_helpers s0) ->
  (length (curves s0) < length (_helpers s0))%nat ->
  points = polyline (vectors s0) (curves s0) ->
  exists curveStart s',
    forEach (fun (curveStart : Z) c index =>
               s ← _getHelper index;
               p ← defined (at_index points curveStart);
               moveTo s p;;
               mret (curveStart + nbPoints c)%Z)
            (curves s0) 0%nat 0%Z s0
    = (Returned curveStart, s')
    ∧ placing s0 (length (curves s0)) s'
    ∧ _helperRef s' = _helperRef s0
    ∧ meshes s'
      = refetched points (curves s0) (_helpers s0) (length (curves s0))
          (meshes s0).
Proof.
  intros Hval Hin Hlen ->.
  edestruct (forEach_inv
    (fun (curveStart : Z) c index =>
               s ← _getHelper index;
               p ← defined (at_index (polyline (vectors s0) (curves s0)) curveStart);
               moveTo s p;;
               mret (curveStart + nbPoints c)%Z)
    (fun k acc s =>
       placing s0 k s ∧ acc = curveStartAt (curves s0) k ∧
       _helperRef s = _helperRef s0 ∧
       meshes s
       = refetched (polyline (vectors s0) (curves s0)) (curves s0)
           (_helpers s0) k (meshes s0))
    (curves s0) 0%nat 0%Z s0) as (acc & s' & Hrun & Hp & _ & Hr & Hm).
  - intros k c acc s Hc (Hp & -> & Hr & Hm). cbn [Nat.add] in *.
    pose proof (lookup_lt_Some _ _ _ Hc) as Hk.
    destruct (at_index_Some (polyline (vectors s0) (curves s0))
                (curveStartAt (curves s0) k)) as [p Hpt].
    { by apply curveStartAt_bounds. }
    exists (curveStartAt (curves s0) k + nbPoints c)%Z, (placeHelper k p s).
    split.
    + erewrite bind_returned; [|apply _getHelper_eq].
      rewrite Hpt. reflexivity.
    + assert (Hhs : _helpers s = _helpers s0 ++ take k (_helpers s0)).
      { by destruct Hp as (_ & _ & _ & _ & _ & _ & _ & _ & Hold);
          destruct (Hold Hlen). }
      destruct (lookup_lt_is_Some_2 (_helpers s0) k) as [h Hh]; [lia|].
      assert (Hsk : _helpers s !! k = Some h).
      { rewrite Hhs. rewrite lookup_app_l by lia. done. }
      split_and!.
      * apply placing_step; [done|lia].
      * by rewrite (curveStartAt_S _ _ c).
      * by rewrite (placeHelper_pooled k p s h).
      * rewrite (placeHelper_pooled k p s h) by done. cbn [meshes].
        rewrite (refetched_S _ _ _ _ _ h) by done. rewrite Hm.
        unfold handlePoint. rewrite decide_True by lia. by rewrite Hpt.
  - split_and!; [by apply placing_start| | |]; done.
  - by exists acc, s'.
Qed.

(** The whole of what [_showHelpers] does when every helper it needs is in
    the pool: the helpers are fetched again and moved, and what the pool
    holds beyond [curves.length + 1] is disposed, the helpers that were
    pushed a second time included. *)
Lemma _showHelpers_pooled_eq s :
  validPath s -> (length (curves s) < length (_helpers s))%nat ->
  _showHelpers s
  = (Returned tt,
     mkPath3DMesh (vectors s)
       (disposeAll
          (drop (S (length (curves s))) (_helpers s)
           ++ take (S (length (curves s))) (_helpers s))
          (refetched (polyline (vectors s) (curves s)) (curves s)
             (_helpers s) (S (length (curves s))) (meshes s)))
       (map (rebuilt (vectors s)) (curves s))
       (take (S (length (curves s))) (_helpers s))
       (_helperRef s) (isVisible s) (color s) (_geometry s)).
Proof.
  intros (Hn & Hval & Hin) Hlen. unfold _showHelpers.
  erewrite bind_returned; [|by apply getFinalCurvePoints_eq].
  set (s0 := set_curves (map (rebuilt (vectors s))) s).
  set (points := polyline (vectors s) (curves s)).
  assert (Hn0 : length (curves s0) = length (curves s)).
  { unfold s0; simpl. by rewrite length_map. }
  assert (Hpoint : forall k,
            handlePoint points (curves s0) k = handlePoint points (curves s) k).
  { intros k. unfold handlePoint, s0. cbn [set_curves curves].
    by rewrite length_map, curveStartAt_rebuilt. }
  destruct (refetch_loop s0 points) as (acc & s1 & Hloop & Hp1 & Hr1 & Hm1).
  { unfold s0; simpl. by apply Forall_validCurve_rebuilt. }
  { done. }
  { by rewrite Hn0. }
  { unfold s0, points; simpl. by rewrite polyline_rebuilt. }
  erewrite bind_returned; [|reflexivity].
  erewrite bind_returned; [|exact Hloop].
  erewrite bind_returned; [|apply _getHelper_eq].
  destruct (at_index_Some points (Z.of_nat (length points) - 1)) as [p Hpt].
  { pose proof (polyline_nonempty _ _ Hval Hn) as Hpl. fold points in Hpl. lia. }
  rewrite Hpt.
  pose proof (placing_step s0 _ p s1 Hp1 ltac:(lia)) as Hp2.
  assert (Hhs1 : _helpers s1
                 = _helpers s ++ take (length (curves s0)) (_helpers s)).
  { destruct Hp1 as (_ & _ & _ & _ & _ & _ & _ & _ & Hold).
    destruct Hold as [Hold _]; [by rewrite Hn0|]. exact Hold. }
  destruct (lookup_lt_is_Some_2 (_helpers s) (length (curves s0)))
    as [h Hh]; [lia|].
  assert (Hs1k : _helpers s1 !! length (curves s0) = Some h).
  { rewrite Hhs1, lookup_app_l by lia. done. }
  pose proof (placeHelper_pooled (length (curves s0)) p s1 h Hs1k) as Hs2.
  set (s2 := placeHelper (length (curves s0)) p s1) in *.
  assert (Hrun : (moveTo (helperFor (length (curves s0)) s1) p ≫= λ _ : (),
             gets _helpers ≫= λ hs : list ref, removeLastHelpers (length hs - 1))
            (afterGetHelper (length (curves s0)) s1)
          = removeLastHelpers (length (_helpers s2) - 1) s2) by reflexivity.
  change (defined (Some p)) with (mret (M := M) p).
  erewrite bind_returned; [|reflexivity].
  rewrite Hrun. clear Hrun.
  destruct Hp2 as (HV & Hcs & Hvis & Hcol & Hgeo & Hlen2 & _ & _ & Hold).
  destruct Hold as [Hhs2 _]; [by rewrite Hn0|].
  rewrite removeLastHelpers_eq by (rewrite Hlen2; lia).
  clearbody s2. f_equal.
  apply Path3DMesh_ext;
    cbn [set_meshes set_helpers set_curves vectors meshes curves
         _helpers _helperRef isVisible color _geometry];
    rewrite ?Hcs, ?Hn0, ?Hhs2, ?Hn0;
    change (_helpers s0) with (_helpers s);
    rewrite ?take_app_le, ?drop_app_le by lia;
    try done.
  - f_equal. rewrite Hs2. cbn [meshes].
    rewrite (refetched_S _ _ _ _ _ h) by (by rewrite <- Hn0).
    rewrite Hm1, Hn0. change (_helpers s0) with (_helpers s).
    change (meshes s0) with (meshes s).
    unfold s0. cbn [set_curves curves]. rewrite !refetched_rebuilt.
    rewrite <- (Hpoint (length (curves s))). unfold s0. cbn [set_curves curves].
    unfold handlePoint at 1. rewrite length_map, decide_False by lia.
    by rewrite Hpt.
  - rewrite Hs2. cbn [_helperRef]. done.
Qed.

Lemma length_refetched points cs hs k ms :
  length (refetched points cs hs k ms) = length ms.
Proof.
  induction k as [|k IH]; [done|].
  destruct (hs !! k) as [h|] eqn:Hk.
  - by rewrite (refetched_S _ _ _ _ _ h), !length_alter.
  - unfold refetched in *. rewrite seq_S, foldl_app. simpl. by rewrite Hk.
Qed.

Lemma refetched_beyond points cs hs k ms :
  hs !! k = None ->
  refetched points cs hs (S k) ms = refetched points cs hs k ms.
Proof.
  intros Hk. unfold refetched. rewrite seq_S, foldl_app. simpl. by rewrite Hk.
Qed.

(** A mesh that is not fetched is left as it was. *)
Lemma refetched_other points cs hs k ms (h : ref) :
  h ∉ take k hs -> refetched points cs hs k ms !! h = ms !! h.
Proof.
  induction k as [|k IH]; intros Hh; [done|].
  destruct (hs !! k) as [h'|] eqn:Hk.
  - rewrite (refetched_S _ _ _ _ _ h') by done.
    rewrite (take_S_r _ _ h') in Hh by done.
    apply not_elem_of_app in Hh as [Hh Hne].
    apply not_elem_of_cons in Hne as [Hne _].
    rewrite !list_lookup_alter_ne by done. by apply IH.
  - rewrite refetched_beyond by done. apply IH.
    rewrite take_ge in Hh by (apply lookup_ge_None in Hk; lia).
    rewrite take_ge by (apply lookup_ge_None in Hk; lia). done.
Qed.

(** A helper that is fetched sits on the point of its slot and has the
    callback of its slot, when no helper is pooled twice. *)
Lemma refetched_helper points cs hs k ms j (h : ref) m :
  NoDup hs -> hs !! j = Some h -> (j < k)%nat -> ms !! h = Some m ->
  refetched points cs hs k ms !! h
  = Some (setPosition (handlePoint points cs j) (setOnMoved j m)).
Proof.
  intros Hnd Hj Hjk Hm. induction k as [|k IH]; [lia|].
  destruct (hs !! k) as [h'|] eqn:Hk.
  - rewrite (refetched_S _ _ _ _ _ h') by done.
    destruct (decide (j = k)) as [->|Hne].
    + assert (h' = h) by congruence. subst h'.
      rewrite !list_lookup_alter_eq.
      rewrite refetched_other, Hm; [done|].
      intros Hin. apply list_elem_of_lookup in Hin as [i Hi].
      pose proof (lookup_lt_Some _ _ _ Hi) as Hlt.
      rewrite length_take in Hlt.
      rewrite lookup_take_lt in Hi by lia.
      pose proof (NoDup_lookup _ _ _ _ Hnd Hi Hj). lia.
    + assert (h' ≠ h).
      { intros ->. pose proof (NoDup_lookup _ _ _ _ Hnd Hk Hj). lia. }
      rewrite !list_lookup_alter_ne by done. apply IH. lia.
  - rewrite refetched_beyond by done. apply IH.
    apply lookup_ge_None in Hk. apply lookup_lt_Some in Hj. lia.
Qed.


(** The positions [_showHelpers] derives, slot by slot. *)
Lemma derivedPositions_eq s' V cs :
  vectors s' = V -> curves s' = map (rebuilt V) cs ->
  Forall (validCurve V) cs -> (1 ≤ length cs)%nat ->
  derivedPositions s'
  = map (fun j => Some (handlePoint (polyline V cs) cs j))
        (seq 0 (S (length cs))).
Proof.
  intros <- Hcs Hval Hn. unfold derivedPositions.
  rewrite Hcs, polyline_rebuilt, length_map, seq_S, map_app. f_equal.
  - apply map_ext_in. intros j Hj. apply in_seq in Hj.
    rewrite curveStartAt_rebuilt. unfold handlePoint.
    rewrite decide_True by lia.
    destruct (at_index_Some (polyline (vectors s') cs) (curveStartAt cs j))
      as [p ->]; [|done].
    apply curveStartAt_bounds; [done|lia].
  - simpl. unfold handlePoint. rewrite decide_False by lia.
    destruct (at_index_Some (polyline (vectors s') cs)
                (Z.of_nat (length (polyline (vectors s') cs)) - 1))
      as [p ->]; [|done].
    pose proof (polyline_nonempty _ _ Hval Hn). lia.
Qed.

Lemma _showHelpers_positions s :
  validPath s -> NoDup (_helpers s) ->
  (length (curves s) < length (_helpers s))%nat ->
  helperPositions (snd (_showHelpers s)) = derivedPositions (snd (_showHelpers s)).
Proof.
  intros Hval Hnd Hlen. pose proof Hval as (Hn & Hcs & Hin).
  rewrite _showHelpers_pooled_eq by done. cbn [snd].
  rewrite (derivedPositions_eq _ (vectors s) (curves s)) by done.
  unfold helperPositions. cbn [meshes _helpers].
  apply list_eq. intros j. rewrite !lookup_map.
  destruct (decide (j < S (length (curves s)))%nat) as [Hj|Hj].
  - rewrite lookup_take_lt, lookup_seq_lt by lia.
    destruct (lookup_lt_is_Some_2 (_helpers s) j) as [h Hh]; [lia|].
    rewrite Hh. cbn [fmap option_fmap option_map]. f_equal.
    assert (Hhm : (h < length (meshes s))%nat).
    { eapply Forall_forall in Hin; [exact Hin|].
      apply list_elem_of_In, list_elem_of_lookup. eauto. }
    destruct (lookup_lt_is_Some_2 (meshes s) h Hhm) as [m Hm].
    rewrite lookup_disposeAll.
    rewrite (refetched_helper _ _ _ _ _ j h m) by done.
    by case_decide.
  - rewrite lookup_take_ge, lookup_seq_ge by lia. done.
Qed.

Lemma updateCurveGeometry_visible_eq s :
  Forall (validCurve (vectors s)) (curves s) -> isVisible s = true ->
  updateCurveGeometry s = _showHelpers (redrawn s).
Proof.
  intros Hcs Hvis. unfold updateCurveGeometry, _updateCurveGeometry.
  erewrite bind_returned; [|by apply getFinalCurvePoints_eq].
  erewrite bind_returned; [|reflexivity].
  erewrite bind_returned; [|reflexivity].
  erewrite bind_returned; [|reflexivity].
  cbn [andb isVisible set_geometry set_curves]. by rewrite Hvis.
Qed.

Lemma redraw_positions s :
  validPath s -> NoDup (_helpers s) -> isVisible s = true ->
  (length (curves s) < length (_helpers s))%nat ->
  helperPositions (snd (updateCurveGeometry s))
  = derivedPositions (snd (updateCurveGeometry s)).
Proof.
  intros Hval Hnd Hvis Hlen.
  rewrite updateCurveGeometry_visible_eq by (done || apply Hval).
  apply _showHelpers_positions.
  - by apply validPath_redrawn.
  - done.
  - simpl. by rewrite length_map.
Qed.

(** X15: on a visible path, [show()], the removal of a curve and the edit
    of a control point leave every pooled helper on the point
    [_showHelpers] derives for its slot from the combined polyline as it
    now is; a drag alone does not (C8). *)
Theorem redraw_puts_helpers_on_the_polyline s o :
  tidy s -> isVisible s = true ->
  match o with
  | OpShow => True
  | OpRemove _ => (1 < length (curves s))%nat
  | OpEdit index _ _ => (index < length (curves s))%nat
  | _ => False
  end ->
  helperPositions (snd (perform o s)) = derivedPositions (snd (perform o s)).
Proof.
  intros ([Hval Hpool] & Hnd & _) Hvis Ho. rewrite Hvis in Hpool.
  destruct o as [| |slot p|id|index f p]; try done; cbn [perform].
  - unfold show. erewrite bind_returned; [|reflexivity].
    apply _showHelpers_positions; [done|done|]. simpl. lia.
  - rewrite removeSegment_eq, decide_False by lia.
    apply redraw_positions; try done.
    + apply validPath_removed; [done|lia].
    + simpl. pose proof (length_delete_le (curves s) id). lia.
  - rewrite editPoint_eq by done.
    destruct (lookup_lt_is_Some_2 (curves s) index Ho) as [c ->].
    apply redraw_positions; try done.
    + by apply validPath_written.
    + simpl. lia.
Qed.

Lemma redraw_puts_helpers_on_the_polyline_witness :
  let s := snd (show threeCurves) in
  helperPositions (snd (perform (OpRemove 1) s))
  = derivedPositions (snd (perform (OpRemove 1) s)).
Proof.
  intros s. apply (redraw_puts_helpers_on_the_polyline s (OpRemove 1)).
  - by_evaluation.
  - reflexivity.
  - by_evaluation.
Defined.

(** ** The pool between operations *)

Lemma tidy_redraw s s' :
  validPath s -> NoDup (_helpers s) ->
  (isVisible s = true -> (length (curves s) < length (_helpers s))%nat) ->
  (isVisible s = false -> _helpers s = [] ∧ _helperRef s = None) ->
  (if isVisible s then shown (redrawn s) s' else s' = redrawn s) ->
  NoDup (_helpers s') ∧ (_helpers s' = [] -> _helperRef s' = None).
Proof.
  intros Hval Hnd Hvis Hhid Hs'. destruct (isVisible s).
  - destruct Hs' as (_ & _ & _ & _ & _ & Hlen & _ & _ & Hold).
    destruct Hold as (Hh' & _); [simpl; rewrite length_map; by apply Hvis|].
    split.
    + rewrite Hh'. eapply sublist_NoDup; [exact Hnd|apply sublist_take].
    + intros E. rewrite E in Hlen. done.
  - subst s'. simpl. destruct Hhid as [-> ->]; [done|]. split; [constructor|done].
Qed.

Lemma perform_tidy o s : tidy s -> tidy (snd (perform o s)).
Proof.
  intros (Hp & Hnd & Href). split; [by apply perform_pooled|].
  destruct Hp as [Hval Hpool].
  assert (Hvis : isVisible s = true -> length (_helpers s) = S (length (curves s))).
  { intros E. by rewrite E in Hpool. }
  assert (Hhid : isVisible s = false -> _helpers s = [] ∧ _helperRef s = None).
  { intros E. rewrite E in Hpool. auto. }
  destruct o as [| |slot p|id|index f p]; cbn [perform].
  - destruct (show_spec s Hval)
      as (s' & -> & (_ & _ & _ & _ & _ & Hlen & _ & Hfresh & Hold)).
    cbn [snd]. split; [|intros E; by rewrite E in Hlen].
    destruct (isVisible s) eqn:E.
    + destruct Hold as (Hh' & _); [simpl; rewrite Hvis by done; lia|].
      rewrite Hh'. eapply sublist_NoDup; [exact Hnd|apply sublist_take].
    + destruct (Hhid eq_refl) as [Hh Hr].
      destruct (Hfresh Hh Hr) as (Hh' & _). rewrite Hh'. apply NoDup_seq.
  - rewrite hide_eq. simpl. split; [constructor|done].
  - rewrite dragHelper_eq.
    destruct (_helpers s !! slot) as [h|]; [|done]. cbn zeta.
    set (s1 := set_meshes (alter (setPosition p) h) s).
    destruct (meshes s1 !! h ≫= onMoved) as [index|]; [|done].
    rewrite helperCallback_eq by (unfold s1; auto with valid).
    destruct (targets (curves s1) index) as [[a b]|]; [|done].
    destruct (meshes s1 !! h) as [m|]; [|done]. simpl.
    destruct a, b; done.
  - rewrite removeSegment_eq. case_decide as Hlen; [done|].
    set (s1 := set_curves (delete id) s).
    assert (Hval1 : validPath s1) by (apply validPath_removed; [done|lia]).
    destruct (updateCurveGeometry_spec s1 Hval1) as (s' & -> & Hs'). cbn [snd].
    apply (tidy_redraw s1); try done.
    intros E. simpl. rewrite (Hvis E).
    pose proof (length_delete_le (curves s) id). lia.
  - rewrite editPoint_eq by done.
    destruct (curves s !! index) as [c|]; [|done].
    set (s1 := written (Some (pointOf f c)) p s).
    assert (Hval1 : validPath s1) by (unfold s1; auto with valid).
    destruct (updateCurveGeometry_spec s1 Hval1) as (s' & -> & Hs'). cbn [snd].
    apply (tidy_redraw s1); try done.
    intros E. simpl. rewrite (Hvis E). lia.
Qed.

(** X16: whatever the operations performed on the default path, or on any
    path in that condition, between two operations no helper is pooled
    twice, although [_getHelper] pushes a pooled helper a second time; and
    while the pool is empty there is no sphere left to make instances
    of. *)
Theorem pool_never_holds_a_helper_twice :
  (forall s ops, tidy s -> tidy (run ops s))
  ∧ (forall ops, tidy (run ops new_Path3DMesh)).
Proof.
  assert (Hgen : forall ops s, tidy s -> tidy (run ops s)).
  { induction ops as [|o ops IH]; intros s Hs; [done|]. simpl.
    by apply IH, perform_tidy. }
  split.
  - intros s ops. apply Hgen.
  - intros ops. apply Hgen. by_evaluation.
Qed.

Lemma pool_never_holds_a_helper_twice_witness :
  tidy (run [OpShow; OpRemove 0; OpHide; OpShow] threeCurves).
Proof.
  apply (proj1 pool_never_holds_a_helper_twice threeCurves
           [OpShow; OpRemove 0; OpHide; OpShow]).
  by_evaluation.
Defined.

(** ** Disposed meshes *)












(** ** The callbacks of the pooled helpers *)

Lemma registered_lookup s :
  registered s <->
  forall slot h, _helpers s !! slot = Some h ->
    meshes s !! h ≫= onMoved = Some slot.
Proof.
  unfold registered, callbacks. split.
  - intros E slot h Hh. apply (f_equal (fun l => l !! slot)) in E.
    rewrite !lookup_map, Hh in E.
    rewrite lookup_seq_lt in E by (by apply lookup_lt_Some in Hh).
    simpl in E. congruence.
  - intros H. apply list_eq. intros i. rewrite !lookup_map.
    destruct (_helpers s !! i) as [h|] eqn:Hh.
    + rewrite lookup_seq_lt by (by apply lookup_lt_Some in Hh).
      simpl. f_equal. by apply H.
    + rewrite lookup_seq_ge; [done|]. by apply lookup_ge_None in Hh.
Qed.

Lemma _showHelpers_registered s :
  validPath s -> NoDup (_helpers s) ->
  (length (curves s) < length (_helpers s))%nat ->
  registered (snd (_showHelpers s)).
Proof.
  intros Hval Hnd Hlen. pose proof Hval as (_ & _ & Hin).
  rewrite _showHelpers_pooled_eq by done. cbn [snd].
  apply registered_lookup. cbn [meshes _helpers]. intros slot h Hh.
  apply lookup_take_Some in Hh as [Hh Hslot].
  assert (Hhm : (h < length (meshes s))%nat).
  { eapply Forall_forall in Hin; [exact Hin|].
    apply list_elem_of_In, list_elem_of_lookup. eauto. }
  destruct (lookup_lt_is_Some_2 (meshes s) h Hhm) as [m Hm].
  rewrite lookup_disposeAll.
  rewrite (refetched_helper _ _ _ _ _ slot h m) by done.
  by case_decide.
Qed.

Lemma redraw_registered s :
  validPath s -> NoDup (_helpers s) ->
  (isVisible s = true -> (length (curves s) < length (_helpers s))%nat) ->
  (isVisible s = false -> _helpers s = []) ->
  registered (snd (updateCurveGeometry s)).
Proof.
  intros Hval Hnd Hlen Hhid. destruct (isVisible s) eqn:Hvis.
  - rewrite updateCurveGeometry_visible_eq by (done || apply Hval).
    apply _showHelpers_registered.
    + by apply validPath_redrawn.
    + done.
    + simpl. rewrite length_map. by apply Hlen.
  - destruct (updateCurveGeometry_spec s Hval) as (s' & -> & Hs').
    rewrite Hvis in Hs'. subst s'. apply registered_lookup.
    simpl. rewrite Hhid by done. intros slot h Hh. done.
Qed.

Lemma registered_moved p (h0 : ref) s s' :
  registered s ->
  _helpers s' = _helpers s -> meshes s' = alter (setPosition p) h0 (meshes s) ->
  registered s'.
Proof.
  intros Hs Hh Hm. apply registered_lookup. rewrite Hh, Hm.
  intros slot h Hslot.
  apply (proj1 (registered_lookup s) Hs) in Hslot.
  destruct (decide (h = h0)) as [->|Hne].
  - rewrite list_lookup_alter_eq. by destruct (meshes s !! h0).
  - by rewrite list_lookup_alter_ne.
Qed.

Lemma perform_registered o s :
  tidy s -> registered s -> registered (snd (perform o s)).
Proof.
  intros ([Hval Hpool] & Hnd & Href) Hreg.
  assert (Hvis : isVisible s = true -> length (_helpers s) = S (length (curves s))).
  { intros E. by rewrite E in Hpool. }
  assert (Hhid : isVisible s = false -> _helpers s = []).
  { intros E. by rewrite E in Hpool. }
  destruct o as [| |slot p|id|index f p]; cbn [perform].
  - destruct (isVisible s) eqn:E.
    + unfold show. erewrite bind_returned; [|reflexivity].
      apply _showHelpers_registered; [done|done|].
      simpl. rewrite Hvis by done. lia.
    + rewrite show_hidden_eq by auto. cbn [snd].
      apply registered_lookup. cbn [meshes _helpers]. intros slot h Hh.
      apply lookup_seq in Hh as [-> Hslot].
      by rewrite lookup_new_helper by lia.
  - rewrite hide_eq. by apply registered_lookup.
  - rewrite dragHelper_eq.
    destruct (_helpers s !! slot) as [h|]; [|done]. cbn zeta.
    set (s1 := set_meshes (alter (setPosition p) h) s).
    assert (Hreg1 : registered s1) by by apply (registered_moved p h s).
    destruct (meshes s1 !! h ≫= onMoved) as [index|]; [|done].
    rewrite helperCallback_eq by (unfold s1; auto with valid).
    destruct (targets (curves s1) index) as [[a b]|]; [|done].
    destruct (meshes s1 !! h) as [m|]; [|done]. simpl.
    apply (registered_moved p h s); [done| |]; by destruct a, b.
  - rewrite removeSegment_eq. case_decide as Hlen; [done|].
    apply (redraw_registered (set_curves (delete id) s)); try done.
    + apply validPath_removed; [done|lia].
    + intros E. simpl. rewrite (Hvis E).
      pose proof (length_delete_le (curves s) id). lia.
  - rewrite editPoint_eq by done.
    destruct (curves s !! index) as [c|]; [|done].
    apply (redraw_registered (written (Some (pointOf f c)) p s)); try done.
    + by apply validPath_written.
    + intros E. simpl. rewrite (Hvis E). lia.
Qed.

(** X18: whatever the operations performed on the default path, or on any
    path in that condition, every pooled helper has the callback made for
    the slot it is pooled at: a redraw of a visible path attaches the
    callbacks again, slot by slot, so the helpers that remain after the
    removal of a curve write to the curves that now meet at their slot. *)
Theorem pooled_helpers_have_the_callback_of_their_slot :
  (forall s ops, tidy s -> registered s ->
     forall slot h, _helpers (run ops s) !! slot = Some h ->
       meshes (run ops s) !! h ≫= onMoved = Some slot)
  ∧ (forall ops slot h,
       _helpers (run ops new_Path3DMesh) !! slot = Some h ->
       meshes (run ops new_Path3DMesh) !! h ≫= onMoved = Some slot).
Proof.
  assert (Hgen : forall ops s, tidy s -> registered s -> registered (run ops s)).
  { induction ops as [|o ops IH]; intros s Ht Hs; [done|]. simpl.
    apply IH; [by apply perform_tidy|by apply perform_registered]. }
  split.
  - intros s ops Ht Hs. by apply registered_lookup, Hgen.
  - intros ops. apply registered_lookup, Hgen; by_evaluation.
Qed.

Lemma pooled_helpers_have_the_callback_of_their_slot_witness :
  let s := snd (show threeCurves) in
  let s' := run [OpRemove 0; OpDrag 1 (vec3 5 1 5 1 5 1)] s in
  meshes s' !! 1%nat ≫= onMoved = Some 1%nat.
Proof.
  intros s s'.
  apply (proj1 pooled_helpers_have_the_callback_of_their_slot s
           [OpRemove 0; OpDrag 1 (vec3 5 1 5 1 5 1)]).
  - by_evaluation.
  - by_evaluation.
  - reflexivity.
Defined.

(** ** The channels of the messages *)

(** X9: no two members of [IPCRequests] stand for the same channel name, and
    no two members of [IPCResponses] do. *)
Theorem channels_are_distinct :
  (forall m m' : IPCRequests.t,
     m ≠ m' -> IPCRequests.value m ≠ IPCRequests.value m')
  ∧ (forall m m' : IPCResponses.t,
       m ≠ m' -> IPCResponses.value m ≠ IPCResponses.value m').
Proof.
  split; intros m m' Hm H; apply Hm;
    destruct m, m'; try reflexivity; discriminate H.
Qed.

Lemma channels_are_distinct_witness :
  IPCRequests.value IPCRequests.OpenFileDialog
  ≠ IPCRequests.value IPCRequests.SaveFileDialog
  ∧ IPCResponses.value IPCResponses.OpenFileDialog
    ≠ IPCResponses.value IPCResponses.CancelOpenFileDialog.
Proof.
  split.
  - apply (proj1 channels_are_distinct). by_evaluation.
  - apply (proj2 channels_are_distinct). by_evaluation.
Defined.

(** X10: a response is sent on the channel of a request, except the two
    responses [CancelOpenFileDialog] and [CancelSaveFileDialog], whose
    channels no request uses; and every request has a response on its
    channel except [FocusWindow], [CloseWindow], [OpenDevTools] and
    [SetTouchBar]. *)
Theorem channels_shared_by_requests_and_responses :
  (forall m : IPCResponses.t,
     (exists q, IPCRequests.value q = IPCResponses.value m)
     <-> m ≠ IPCResponses.CancelOpenFileDialog
         ∧ m ≠ IPCResponses.CancelSaveFileDialog)
  ∧ (forall q : IPCRequests.t,
       (exists m, IPCResponses.value m = IPCRequests.value q)
       <-> q ≠ IPCRequests.FocusWindow ∧ q ≠ IPCRequests.CloseWindow
           ∧ q ≠ IPCRequests.OpenDevTools ∧ q ≠ IPCRequests.SetTouchBar).
Proof.
  split.
  - intros m. split.
    + intros [q H]. split; intros ->; destruct q; discriminate H.
    + intros [H1 H2]. destruct m; try done.
      * by exists IPCRequests.OpenWindowOnDemand.
      * by exists IPCRequests.OpenFileDialog.
      * by exists IPCRequests.SaveFileDialog.
      * by exists IPCRequests.OpenDirectoryDialog.
      * by exists IPCRequests.GetProjectPath.
      * by exists IPCRequests.SetProjectPath.
      * by exists IPCRequests.GetWorkspacePath.
      * by exists IPCRequests.SetWorkspacePath.
      * by exists IPCRequests.GetAppPath.
      * by exists IPCRequests.GetWindowId.
      * by exists IPCRequests.StartGameServer.
      * by exists IPCRequests.SendWindowMessage.
      * by exists IPCRequests.EnableDevTools.
  - intros q. split.
    + intros [m H]. split_and!; intros ->; destruct m; discriminate H.
    + intros (H1 & H2 & H3 & H4). destruct q; try done.
      * by exists IPCResponses.OpenWindowOnDemand.
      * by exists IPCResponses.OpenFileDialog.
      * by exists IPCResponses.SaveFileDialog.
      * by exists IPCResponses.OpenDirectoryDialog.
      * by exists IPCResponses.GetProjectPath.
      * by exists IPCResponses.SetProjectPath.
      * by exists IPCResponses.GetWorkspacePath.
      * by exists IPCResponses.SetWorkspacePath.
      * by exists IPCResponses.GetAppPath.
      * by exists IPCResponses.GetWindowId.
      * by exists IPCResponses.StartGameServer.
      * by exists IPCResponses.SendWindowMessage.
      * by exists IPCResponses.EnableDevTools.
Qed.

(** ** The inspector *)

Lemma onSelectedObject_eq {A} (m : M A) i r s :
  m (selectedObject i) = (r, s) ->
  onSelectedObject m i
  = (r, mkInspector s (state_curves i) (state_selectedCurve i)).
Proof. unfold onSelectedObject. by intros ->. Qed.

Lemma tree_from l V : forall index nodes s,
  vectors s = V ->
  Forall (validCurve V) l ->
  forEach (fun (nodes : list TreeNodeInfo.t) c i =>
             p0 ← readVector (v0 c);
             p3 ← readVector (v3 c);
             mret (nodes
                   ++ [TreeNodeInfo.mk i
                         (mkLabel i (x p0) (y p0) (z p0) (x p3))
                         (setCurve None c) false]))
          l index nodes s
  = (Returned (nodes ++ imap (fun j => nodeFor V (index + j)) l), s).
Proof.
  induction l as [|c l IH]; intros index nodes s HV Hval.
  - simpl. by rewrite app_nil_r.
  - inversion Hval as [|? ? Hc Hl]; subst.
    destruct Hc as (H0 & _ & _ & H3 & _).
    apply lookup_lt_is_Some_2 in H0 as [p0 E0].
    apply lookup_lt_is_Some_2 in H3 as [p3 E3].
    cbn [forEach]. unfold readVector. msimpl. rewrite E0. msimpl.
    rewrite E3. msimpl.
    rewrite IH by done. do 2 f_equal.
    rewrite <- app_assoc. apply (f_equal (app nodes)).
    rewrite imap_cons. cbn [app]. apply (f_equal2 cons).
    + unfold nodeFor. rewrite E0, E3, Nat.add_0_r. done.
    + apply imap_ext. intros j d _. simpl. f_equal. lia.
Qed.

Lemma _getTreeNodePointsInfo_eq s :
  Forall (validCurve (vectors s)) (curves s) ->
  _getTreeNodePointsInfo s
  = (Returned (imap (nodeFor (vectors s)) (curves s)), s).
Proof.
  intros Hval. unfold _getTreeNodePointsInfo.
  erewrite bind_returned; [|reflexivity]. cbn beta.
  by rewrite (tree_from _ (vectors s)).
Qed.

Lemma map_imap {A B C} (g : B -> C) (f : nat -> A -> B) (l : list A) :
  map g (imap f l) = imap (fun i a => g (f i a)) l.
Proof.
  revert f. induction l as [|a l IH]; intros f; [done|].
  rewrite !imap_cons. simpl. f_equal. apply IH.
Qed.

Lemma imap_index {A} (l : list A) : forall i,
  imap (fun j _ => (i + j)%nat) l = seq i (length l).
Proof.
  induction l as [|a l IH]; intros i; [done|].
  rewrite imap_cons. simpl. rewrite Nat.add_0_r. f_equal.
  rewrite <- IH. apply imap_ext. intros j d _. simpl. lia.
Qed.

Lemma imap_const {A B} (f : A -> B) (l : list A) :
  imap (fun _ a => f a) l = map f l.
Proof. induction l as [|a l IH]; [done|]. rewrite imap_cons. simpl. by f_equal. Qed.

(** A tree that has just been made shows the path, nothing selected. *)
Lemma consistent_fresh s :
  pooled s ->
  consistent (mkInspector s (imap (nodeFor (vectors s)) (curves s)) None).
Proof.
  intros Hs. unfold consistent. cbn [selectedObject state_curves state_selectedCurve].
  split_and!; try done.
  - rewrite map_imap. cbn [nodeFor TreeNodeInfo.id].
    apply (imap_index (curves s) 0).
  - rewrite map_imap. cbn [nodeFor TreeNodeInfo.nodeData].
    apply imap_const.
  - intros k node Hk Hsel. rewrite list_lookup_imap in Hk.
    destruct (curves s !! k); simplify_eq/=.
Qed.

Lemma new_Path3DInspector_eq s :
  Forall (validCurve (vectors s)) (curves s) ->
  new_Path3DInspector s
  = (Returned tt, mkInspector s (imap (nodeFor (vectors s)) (curves s)) None).
Proof.
  intros Hval. unfold new_Path3DInspector, andThen.
  erewrite onSelectedObject_eq; [|by apply _getTreeNodePointsInfo_eq].
  reflexivity.
Qed.

(** *** The curve objects under the operations on the path *)

Lemma curveObjects_redraw s s' :
  (if isVisible s then shown (redrawn s) s' else s' = redrawn s) ->
  vectors s' = vectors s ∧ curveObjects s' = curveObjects s.
Proof.
  unfold curveObjects. destruct (isVisible s).
  - intros (HV & -> & _). simpl in *. by rewrite !map_map.
  - intros ->. simpl. by rewrite !map_map.
Qed.

Lemma perform_curveObjects o s :
  pooled s ->
  curveObjects (snd (perform o s))
  = match o with
    | OpRemove id =>
        if decide (length (curves s) ≤ 1)%nat then curveObjects s
        else delete id (curveObjects s)
    | _ => curveObjects s
    end.
Proof.
  intros [Hval Hpool]. destruct o as [| |slot p|id|index f p]; simpl.
  - destruct (show_spec s Hval) as (s' & -> & (_ & Hcs & _)). simpl in *.
    unfold curveObjects. by rewrite Hcs, map_map.
  - by rewrite hide_eq.
  - rewrite dragHelper_eq.
    destruct (_helpers s !! slot) as [h|]; [|done]. cbn zeta.
    set (s1 := set_meshes (alter (setPosition p) h) s).
    destruct (meshes s1 !! h ≫= onMoved) as [index|]; [|done].
    rewrite helperCallback_eq by (unfold s1; auto with valid).
    destruct (targets (curves s1) index) as [[a b]|]; [|done].
    destruct (meshes s1 !! h) as [m|]; [|done]. simpl.
    unfold curveObjects. simpl. destruct a, b; simpl; by rewrite map_map.
  - rewrite removeSegment_eq. case_decide as Hlen; [done|].
    set (s1 := set_curves (delete id) s).
    assert (Hval1 : validPath s1) by (apply validPath_removed; [done|lia]).
    destruct (updateCurveGeometry_spec s1 Hval1) as (s' & -> & Hs'). simpl.
    destruct (curveObjects_redraw s1 s' Hs') as [_ ->].
    unfold curveObjects, s1. simpl.
    generalize (curves s). clear. intros l. revert id.
    induction l as [|c l IH]; intros [|id]; simpl; auto. by rewrite IH.
  - rewrite editPoint_eq by done.
    destruct (curves s !! index) as [c|]; [|done].
    set (s1 := written (Some (pointOf f c)) p s).
    assert (Hval1 : validPath s1) by (unfold s1; auto with valid).
    destruct (updateCurveGeometry_spec s1 Hval1) as (s' & -> & Hs'). simpl.
    by destruct (curveObjects_redraw s1 s' Hs') as [_ ->].
Qed.

Lemma length_curveObjects s : length (curveObjects s) = length (curves s).
Proof. unfold curveObjects. by rewrite length_map. Qed.

(** *** The handlers on a consistent inspector *)

Lemma consistent_node i k node :
  consistent i -> state_curves i !! k = Some node ->
  TreeNodeInfo.id node = k
  ∧ (k < length (curves (selectedObject i)))%nat
  ∧ setCurve None <$> curves (selectedObject i) !! k
    = Some (TreeNodeInfo.nodeData node).
Proof.
  intros (_ & Hid & Hdata & _) Hk.
  assert (Hlen : length (state_curves i) = length (curves (selectedObject i))).
  { apply (f_equal length) in Hid. by rewrite length_map, length_seq in Hid. }
  pose proof (lookup_lt_Some _ _ _ Hk) as Hlt. rewrite Hlen in Hlt.
  split_and!; [|done|].
  - apply (f_equal (fun l => l !! k)) in Hid.
    rewrite lookup_map, Hk, lookup_seq_lt in Hid by done.
    simpl in Hid. congruence.
  - apply (f_equal (fun l => l !! k)) in Hdata.
    unfold curveObjects in Hdata. rewrite !lookup_map, Hk in Hdata.
    simpl in Hdata. done.
Qed.

(** The edit through the selected node is the edit of the curve at its
    position. *)
Lemma getSelectedPointInspector_eq f p i k :
  consistent i -> state_selectedCurve i = Some k ->
  getSelectedPointInspector f p i = onSelectedObject (editPoint k f p) i.
Proof.
  intros Hi Hsel. unfold getSelectedPointInspector. rewrite Hsel.
  pose proof Hi as (_ & _ & _ & _ & Hin).
  destruct (lookup_lt_is_Some_2 _ _ (Hin k Hsel)) as [node Hnode].
  rewrite Hnode.
  destruct (consistent_node i k node Hi Hnode) as (_ & Hk & Hdata).
  destruct (curves (selectedObject i) !! k) as [c|] eqn:Hc; [|done].
  simpl in Hdata. injection Hdata as Hdata.
  unfold onSelectedObject, editPoint.
  assert (E : forall s, curves s !! k = Some c ->
            (copyFrom (Some (pointOf f (TreeNodeInfo.nodeData node))) p;;
             updateCurveGeometry) s
            = (cs ← gets curves;
               c ← defined (cs !! k);
               copyFrom (Some (pointOf f c)) p;; updateCurveGeometry) s).
  { intros s Hs. rewrite <- Hdata.
    replace (pointOf f (setCurve None c)) with (pointOf f c) by by destruct f.
    symmetry. erewrite bind_returned; [|reflexivity]. cbn beta.
    rewrite Hs. erewrite bind_returned; [|reflexivity]. done. }
  by rewrite E.
Qed.

Lemma select_keeps {A} (g : TreeNodeInfo.t -> A) b (l : list TreeNodeInfo.t) :
  (forall n, g (TreeNodeInfo.select b n) = g n) ->
  map g (map (TreeNodeInfo.select b) l) = map g l.
Proof. intros Hg. rewrite map_map. by apply map_ext. Qed.

Lemma handle_consistent e i : consistent i -> consistent (snd (handle e i)).
Proof.
  intros Hi. pose proof Hi as (Hpool & Hid & Hdata & Hflag & Hin).
  assert (Hpath : forall o, (forall id, o ≠ OpRemove id) ->
            consistent (snd (onSelectedObject (perform o) i))).
  { intros o Ho. unfold onSelectedObject, consistent.
    cbn [snd selectedObject state_curves state_selectedCurve].
    pose proof (perform_curveObjects o (selectedObject i) Hpool) as Hobj.
    assert (Hsame : curveObjects (snd (perform o (selectedObject i)))
                    = curveObjects (selectedObject i)).
    { rewrite Hobj. destruct o; try done. by destruct (Ho id). }
    split_and!; try done.
    - by apply perform_pooled.
    - rewrite Hid. f_equal.
      by rewrite <- !length_curveObjects, Hsame.
    - by rewrite Hsame. }
  destruct e as [| |k|k|f p|slot p]; cbn [handle].
  - apply (Hpath OpShow). done.
  - apply (Hpath OpHide). done.
  - unfold _handleCurveNodeClicked.
    set (nodes := map (TreeNodeInfo.select false) (state_curves i)).
    destruct (nodes !! k) as [node|] eqn:Hk.
    + unfold setState, consistent.
      cbn [snd selectedObject state_curves state_selectedCurve].
      split_and!; try done.
      * rewrite map_alter_fixed by done. unfold nodes.
        by rewrite select_keeps.
      * rewrite map_alter_fixed by done. unfold nodes.
        by rewrite select_keeps.
      * intros k' node' Hk' Hsel.
        destruct (decide (k' = k)) as [->|Hne]; [done|].
        rewrite list_lookup_alter_ne in Hk' by done.
        unfold nodes in Hk'. rewrite lookup_map in Hk'.
        destruct (state_curves i !! k'); simplify_eq/=.
      * intros k' [= <-]. rewrite length_alter.
        by apply lookup_lt_Some in Hk.
    + unfold consistent.
      cbn [snd selectedObject state_curves state_selectedCurve].
      split_and!; try done.
      * unfold nodes. by rewrite select_keeps.
      * unfold nodes. by rewrite select_keeps.
      * intros k' node' Hk' Hsel.
        unfold nodes in Hk'. rewrite lookup_map in Hk'.
        destruct (state_curves i !! k'); simplify_eq/=.
      * intros k' Hk'. unfold nodes. rewrite length_map. by apply Hin.
  - unfold _handleCurveNodeContextMenu.
    case_decide as Hlen; [done|].
    destruct (state_curves i !! k) as [node|] eqn:Hk; [|done].
    destruct (consistent_node i k node Hi Hk) as (-> & Hlt & _).
    set (s := selectedObject i).
    assert (Hrm : removeClicked k s = removeSegment k s).
    { rewrite removeSegment_eq. fold s in Hlen. rewrite decide_False by done.
      reflexivity. }
    pose proof (perform_pooled (OpRemove k) s Hpool) as Hp'.
    cbn [perform] in Hp'. rewrite <- Hrm in Hp'.
    assert (Hret : fst (removeClicked k s) = Returned tt).
    { rewrite Hrm, removeSegment_eq, decide_False by done.
      destruct (updateCurveGeometry_spec (set_curves (delete k) s))
        as (s' & -> & _); [|done].
      apply validPath_removed; [apply Hpool|]. fold s in Hlen. lia. }
    unfold andThen at 1. unfold onSelectedObject at 1. fold s.
    rewrite Hret. unfold andThen.
    erewrite onSelectedObject_eq;
      [|apply _getTreeNodePointsInfo_eq; apply Hp'].
    unfold setState. cbn [snd selectedObject].
    by apply consistent_fresh.
  - destruct (state_selectedCurve i) as [k|] eqn:Hsel.
    + rewrite (getSelectedPointInspector_eq f p i k) by done.
      apply (Hpath (OpEdit k f p)). done.
    + unfold getSelectedPointInspector. by rewrite Hsel.
  - apply (Hpath (OpDrag slot p)). done.
Qed.

Lemma after_consistent es : forall i, consistent i -> consistent (after es i).
Proof.
  induction es as [|e es IH]; intros i Hi; [done|].
  simpl. by apply IH, handle_consistent.
Qed.

Lemma inspect_consistent s es :
  pooled s -> consistent (inspect s es).
Proof.
  intros Hs. unfold inspect. rewrite new_Path3DInspector_eq by apply Hs.
  apply after_consistent. by apply consistent_fresh.
Qed.

(** X11: the inspector of a path whose pool is in order is constructed
    without an exception, and whatever happens to it afterwards (mount,
    unmount, clicks and context-menu removals on nodes, edits of the
    selected curve, drags of helpers), its tree shows the path: one node per
    curve, the node at [k] numbered [k] and holding the curve at [k]; at
    most one node is marked as selected, the one [selectedCurve] holds, and
    [selectedCurve] is a node of the tree. *)
Theorem inspector_tree_follows_path s :
  pooled s ->
  fst (new_Path3DInspector s) = Returned tt
  ∧ selectedObject (inspect s []) = s
  ∧ forall es, consistent (inspect s es).
Proof.
  intros Hs. split_and!.
  - by rewrite new_Path3DInspector_eq by apply Hs.
  - unfold inspect. by rewrite new_Path3DInspector_eq by apply Hs.
  - intros es. by apply inspect_consistent.
Qed.

Lemma inspector_tree_follows_path_witness :
  consistent
    (inspect new_Path3DMesh
       [Mount; Click 1; EditField StartPoint (vec3 5 1 5 1 5 1); RemoveOn 0]).
Proof.
  apply (inspector_tree_follows_path new_Path3DMesh). by_evaluation.
Defined.

(** X12: a click on the node at [k] returns, leaves the path as it is,
    marks that node and no other as selected and makes it the
    [selectedCurve]; an edit through the fields rendered for it then is the
    edit of the control point of the curve at [k] of the path. *)
Theorem click_selects_the_curve_edited s es k f p :
  pooled s ->
  (k < length (curves (selectedObject (inspect s es))))%nat ->
  exists i,
    _handleCurveNodeClicked k (inspect s es) = (Returned tt, i)
    ∧ selectedObject i = selectedObject (inspect s es)
    ∧ state_selectedCurve i = Some k
    ∧ (forall j node, state_curves i !! j = Some node ->
         TreeNodeInfo.isSelected node = bool_decide (j = k))
    ∧ getSelectedPointInspector f p i = onSelectedObject (editPoint k f p) i.
Proof.
  intros Hs Hk. set (i0 := inspect s es) in *.
  pose proof (inspect_consistent s es Hs) as Hi0. fold i0 in Hi0.
  pose proof (handle_consistent (Click k) i0 Hi0) as Hi1.
  cbn [handle] in Hi1. revert Hi1.
  unfold _handleCurveNodeClicked.
  set (nodes := map (TreeNodeInfo.select false) (state_curves i0)).
  assert (Hlen : length (state_curves i0) = length (curves (selectedObject i0))).
  { destruct Hi0 as (_ & Hid & _). apply (f_equal length) in Hid.
    by rewrite length_map, length_seq in Hid. }
  destruct (lookup_lt_is_Some_2 nodes k) as [node Hnode].
  { unfold nodes. rewrite length_map. lia. }
  rewrite Hnode. unfold setState. cbn [selectedObject snd]. intros Hi1.
  eexists. split; [reflexivity|].
  cbn [selectedObject state_curves state_selectedCurve].
  split_and!; try done.
  - intros j node' Hj. destruct (decide (j = k)) as [->|Hne].
    + rewrite list_lookup_alter_eq, Hnode in Hj. simplify_eq/=.
      by rewrite bool_decide_eq_true_2.
    + rewrite list_lookup_alter_ne in Hj by done.
      unfold nodes in Hj. rewrite lookup_map in Hj.
      destruct (state_curves i0 !! j); simplify_eq/=.
      by rewrite bool_decide_eq_false_2.
  - by apply getSelectedPointInspector_eq.
Qed.

Lemma click_selects_the_curve_edited_witness :
  let i0 := inspect new_Path3DMesh [Mount] in
  let p := vec3 5 1 5 1 5 1 in
  exists i,
    _handleCurveNodeClicked 1 i0 = (Returned tt, i)
    ∧ state_selectedCurve i = Some 1%nat
    ∧ getSelectedPointInspector EndPoint p i
      = onSelectedObject (editPoint 1 EndPoint p) i.
Proof.
  intros i0 p.
  destruct (click_selects_the_curve_edited new_Path3DMesh [Mount] 1 EndPoint p)
    as (i & Hrun & _ & Hsel & _ & Hedit).
  - by_evaluation.
  - by_evaluation.
  - exists i. split_and!; [exact Hrun|exact Hsel|exact Hedit].
Defined.

(** X13: on a path of several curves, "Remove" in the context menu of the
    node at [k] returns; the path loses the curve at [k] and no other, its
    [Vector3] objects are untouched, the selection is cleared, and the tree
    is the one [_getTreeNodePointsInfo] makes of the path as it now is: one
    node fewer, numbered from 0, none marked as selected. *)
Theorem context_menu_removes_the_curve s es k :
  pooled s ->
  (1 < length (curves (selectedObject (inspect s es))))%nat ->
  (k < length (curves (selectedObject (inspect s es))))%nat ->
  exists i,
    _handleCurveNodeContextMenu k (inspect s es) = (Returned tt, i)
    ∧ curveObjects (selectedObject i)
      = delete k (curveObjects (selectedObject (inspect s es)))
    ∧ vectors (selectedObject i) = vectors (selectedObject (inspect s es))
    ∧ state_selectedCurve i = None
    ∧ _getTreeNodePointsInfo (selectedObject i)
      = (Returned (state_curves i), selectedObject i)
    ∧ map TreeNodeInfo.id (state_curves i)
      = seq 0 (length (curves (selectedObject (inspect s es))) - 1)
    ∧ Forall (fun node => TreeNodeInfo.isSelected node = false) (state_curves i).
Proof.
  intros Hs Hn Hk. set (i0 := inspect s es) in *.
  pose proof (inspect_consistent s es Hs) as Hi0. fold i0 in Hi0.
  pose proof Hi0 as (Hpool & Hid & _).
  assert (Hlen : length (state_curves i0) = length (curves (selectedObject i0))).
  { apply (f_equal length) in Hid. by rewrite length_map, length_seq in Hid. }
  destruct (lookup_lt_is_Some_2 (state_curves i0) k) as [node Hnode]; [lia|].
  destruct (consistent_node i0 k node Hi0 Hnode) as (Hidk & _ & _).
  unfold _handleCurveNodeContextMenu.
  rewrite decide_False by lia. rewrite Hnode, Hidk.
  set (s0 := selectedObject i0) in *.
  assert (Hval1 : validPath (set_curves (delete k) s0))
    by (apply validPath_removed; [apply Hpool|lia]).
  destruct (updateCurveGeometry_spec _ Hval1) as (s1 & Hrun & Hs1).
  assert (Hrm : removeClicked k s0 = (Returned tt, s1)).
  { unfold removeClicked. erewrite bind_returned; [|reflexivity]. exact Hrun. }
  pose proof (perform_pooled (OpRemove k) s0 Hpool) as Hp1.
  pose proof (perform_curveObjects (OpRemove k) s0 Hpool) as Hobj.
  cbn [perform] in Hp1, Hobj.
  rewrite removeSegment_eq, decide_False, Hrun in Hp1, Hobj by lia.
  cbn [snd] in Hp1, Hobj. rewrite decide_False in Hobj by lia.
  destruct (curveObjects_redraw _ s1 Hs1) as [HV _].
  unfold andThen. erewrite onSelectedObject_eq by exact Hrm.
  erewrite onSelectedObject_eq
    by (apply _getTreeNodePointsInfo_eq; apply Hp1).
  unfold setState. cbn [selectedObject state_curves state_selectedCurve].
  eexists. split; [reflexivity|].
  cbn [selectedObject state_curves state_selectedCurve].
  assert (Hlen1 : length (curves s1) = (length (curves s0) - 1)%nat).
  { rewrite <- !length_curveObjects, Hobj, length_delete.
    - done.
    - apply lookup_lt_is_Some_2. rewrite length_curveObjects. done. }
  split_and!; try done.
  - by apply _getTreeNodePointsInfo_eq, Hp1.
  - rewrite map_imap. cbn [nodeFor TreeNodeInfo.id]. rewrite <- Hlen1.
    apply (imap_index (curves s1) 0).
  - apply Forall_forall. intros node' Hin.
    apply list_elem_of_In, list_elem_of_lookup in Hin as [j Hj].
    rewrite list_lookup_imap in Hj.
    destruct (curves s1 !! j); simplify_eq/=. done.
Qed.

Lemma context_menu_removes_the_curve_witness :
  let i0 := inspect threeCurves [Mount; Click 1] in
  exists i,
    _handleCurveNodeContextMenu 1 i0 = (Returned tt, i)
    ∧ curveObjects (selectedObject i) = delete 1%nat (curveObjects (selectedObject i0))
    ∧ state_selectedCurve i = None.
Proof.
  intros i0.
  destruct (context_menu_removes_the_curve threeCurves [Mount; Click 1] 1)
    as (i & Hrun & Hobj & _ & Hsel & _).
  - by_evaluation.
  - by_evaluation.
  - by_evaluation.
  - exists i. split_and!; [exact Hrun|exact Hobj|exact Hsel].
Defined.

(** X14: an edit of the start point of the selected curve returns and
    leaves the tree as it was, labels included, although the label
    [_getTreeNodePointsInfo] would now make for that curve shows the new
    coordinates: the tree is only made again by a removal. *)
Theorem label_not_refreshed_by_edit s es k node p :
  pooled s ->
  state_selectedCurve (inspect s es) = Some k ->
  state_curves (inspect s es) !! k = Some node ->
  exists i fresh node',
    getSelectedPointInspector StartPoint p (inspect s es) = (Returned tt, i)
    ∧ state_curves i = state_curves (inspect s es)
    ∧ _getTreeNodePointsInfo (selectedObject i)
      = (Returned fresh, selectedObject i)
    ∧ fresh !! k = Some node'
    ∧ shownX (TreeNodeInfo.label node') = x p
    ∧ shownY (TreeNodeInfo.label node') = y p
    ∧ shownZ (TreeNodeInfo.label node') = z p.
Proof.
  intros Hs Hsel Hnode. set (i0 := inspect s es) in *.
  pose proof (inspect_consistent s es Hs) as Hi0. fold i0 in Hi0.
  pose proof Hi0 as (Hpool & _).
  destruct (consistent_node i0 k node Hi0 Hnode) as (_ & Hk & _).
  rewrite (getSelectedPointInspector_eq StartPoint p i0 k) by done.
  set (s0 := selectedObject i0) in *.
  destruct (lookup_lt_is_Some_2 (curves s0) k Hk) as [c Hc].
  destruct (editPoint_effect s0 k StartPoint p c (proj1 Hpool) Hc)
    as (Hin & s1 & Hrun & HV & Hcs & _).
  erewrite onSelectedObject_eq by exact Hrun.
  pose proof (perform_pooled (OpEdit k StartPoint p) s0 Hpool) as Hp1.
  cbn [perform] in Hp1. rewrite Hrun in Hp1. cbn [snd] in Hp1.
  exists (mkInspector s1 (state_curves i0) (state_selectedCurve i0)),
    (imap (nodeFor (vectors s1)) (curves s1)),
    (nodeFor (vectors s1) k (rebuilt (vectors s1) c)).
  cbn [selectedObject state_curves].
  split_and!; try done.
  - by apply _getTreeNodePointsInfo_eq, Hp1.
  - by rewrite list_lookup_imap, Hcs, lookup_map, Hc.
  - cbn. change (v0 c) with (pointOf StartPoint c).
    by rewrite HV, list_lookup_insert_eq.
  - cbn. change (v0 c) with (pointOf StartPoint c).
    by rewrite HV, list_lookup_insert_eq.
  - cbn. change (v0 c) with (pointOf StartPoint c).
    by rewrite HV, list_lookup_insert_eq.
Qed.

Lemma label_not_refreshed_by_edit_witness :
  let i0 := inspect new_Path3DMesh [Mount; Click 0] in
  let p := vec3 5 1 5 1 5 1 in
  let node :=
    TreeNodeInfo.mk 0
      (mkLabel 0 (x (vec3 0 1 0 1 0 1)) (y (vec3 0 1 0 1 0 1))
         (z (vec3 0 1 0 1 0 1)) (x (vec3 1 1 1 1 1 1)))
      (mkCurve None 10 0 1 2 3) true in
  exists i fresh node',
    getSelectedPointInspector StartPoint p i0 = (Returned tt, i)
    ∧ state_curves i !! 0%nat = Some node
    ∧ _getTreeNodePointsInfo (selectedObject i)
      = (Returned fresh, selectedObject i)
    ∧ fresh !! 0%nat = Some node'
    ∧ TreeNodeInfo.label node' ≠ TreeNodeInfo.label node.
Proof.
  intros i0 p node.
  assert (Hnode : state_curves i0 !! 0%nat = Some node) by by_evaluation.
  destruct (label_not_refreshed_by_edit new_Path3DMesh [Mount; Click 0]
              0 node p)
    as (i & fresh & node' & Hrun & Htree & Hfresh & Hk & Hx & _).
  - by_evaluation.
  - by_evaluation.
  - exact Hnode.
  - exists i, fresh, node'.
    split_and!; [exact Hrun|by rewrite Htree|exact Hfresh|exact Hk|].
    intros E. rewrite E in Hx.
    assert (Hne : shownX (TreeNodeInfo.label node) ≠ x p) by by_evaluation.
    exact (Hne Hx).
Defined.
